(** * AsyncJobQueue: a shallow embedding of the keyed and the no-key job queue

    The development follows [src/AsyncJobQueue/AsyncJobQueue.h] (the keyed
    class template and the inline members of the [NoKey] specialisation) and
    [src/AsyncJobQueue/AsyncJobQueue.cpp] (the out-of-line members of the
    [NoKey] specialisation).

    The member functions other than the destructor touch the shared
    members only while they hold [mutex_for_condition_variable], so a
    critical section is one atomic step of the model and the mutex itself
    is not represented.  A thread is
    described by the program point at which it stands between two critical
    sections, and an execution is a list of labels: calls of the public
    members by outside threads, and steps of the workers and of the callers
    blocked in [Join].

    The two condition variables are modelled by a [notified] flag on each
    blocked thread.  A blocked thread runs again only after the flag has
    been set: by a notification, or by a spurious wake-up, which C++ permits
    but never promises and which has a step label of its own.  The
    notification that [Add] and [AddWithCallback] issue after unlocking is
    taken together with the critical section it follows.

    The destructor is the one member that takes no lock.  Its calls have
    labels of their own: one for each [request_stop], one for its
    [notify_all], and one for the case in which they fall between a
    worker's test of its wait predicate and the worker's blocking, where the
    notification is lost on that worker.  [CallDestructor] is the
    destructor when nothing comes in between its calls.

    A job body runs with no lock held and acts on the user's memory only;
    it is one step of the worker that runs it.  Two histories record, in
    order, the entries taken from the job store and the entries run. *)

From Stdlib Require Import NArith Lia.
From stdpp Require Import base option list gmap strings.

(** ** [std::size_t] counters *)

Definition SIZE_MAX : N := 18446744073709551615.

(** [++n] and [--n] on a [std::size_t]: arithmetic modulo [2^64]. *)
Definition size_incr (n : N) : N := ((n + 1) mod (SIZE_MAX + 1))%N.
Definition size_decr (n : N) : N := ((n + SIZE_MAX) mod (SIZE_MAX + 1))%N.

(** [std::empty] on a sequence. *)
Definition std_empty {A : Type} (l : list A) : bool :=
  match l with [] => true | _ :: _ => false end.

(** [emplace_back] / [push]: a container cannot hold more elements than its
    [size_type] counts ([max_size() <= SIZE_MAX]); the allocation of a
    further node fails with an exception, the container is left as it was
    and the statements after the call are not reached. *)
Definition emplace_back {A : Type} (x : A) (l : list A) : option (list A) :=
  if decide (N.of_nat (length l) < SIZE_MAX)%N then Some (l ++ [x]) else None.

(** ** Callables, jobs and deferred futures

    A callable supplied by the user runs on the user's part of the memory,
    [W]; it returns a value or leaves by an exception of type [E]. *)

Inductive outcome (E A : Type) : Type :=
| Returned (a : A)
| Thrown (e : E).
Arguments Returned {E A} a.
Arguments Thrown {E A} e.

Definition callable (W E A : Type) : Type := W → outcome E A * W.

Section Callables.
Context {W E : Type}.

#[export] Instance callable_ret : MRet (callable W E) :=
  λ A a w, (Returned a, w).

#[export] Instance callable_bind : MBind (callable W E) :=
  λ A B g f w,
    match f w with
    | (Returned a, w') => g a w'
    | (Thrown e, w') => (Thrown e, w')
    end.

(** [std::invoke(f, args...)] with the arguments already bound. *)
Definition invoke {A : Type} (f : callable W E A) : callable W E A := f.

(** The lambda [job] of [Add]: [std::invoke(std::forward<Xs>(xs)...)]. *)
Definition job_Add (func : callable W E unit) : callable W E unit :=
  invoke func.

(** The lambda [job] of [AddWithCallback] when [func] returns [void]. *)
Definition job_AddWithCallback_void
    (callback func : callable W E unit) : callable W E unit :=
  invoke func ;; invoke callback.

(** The lambda [job] of [AddWithCallback] when [func] returns a value:
    [std::invoke(callback, std::invoke(xs...))]. *)
Definition job_AddWithCallback {R : Type}
    (callback : R → callable W E unit) (func : callable W E R)
    : callable W E unit :=
  r ← invoke func; invoke (callback r).

(** [std::future<void>] obtained from [std::async(std::launch::deferred, ...)]:
    the task has not run; [get] runs it on the calling thread and rethrows
    what it throws.  A future destroyed without [get] never runs its task. *)
Definition future : Type := callable W E unit.
Definition async_deferred (task : callable W E unit) : future := task.
Definition get (f : future) : callable W E unit := f.
End Callables.
Arguments future : clear implicits.

(** * The keyed queue, [AsyncJobQueue<Key>] *)

Module Keyed.
Section Queue.
Context `{Countable K} {W E : Type}.

(** Where a worker stands in [JobDispatcherThread]. *)
Inductive control : Type :=
| LoopTop                                   (* about to lock, line 150 *)
| Waiting (notified : bool)                 (* inside the wait of line 154 *)
| Running (key : K) (job : future W E)      (* unlocked, before [job.get()] *)
| Finishing (key : K)                       (* [job.get()] returned, before [lk.lock()] *)
| Exited.                                   (* left the loop by [break] *)

(** A [std::jthread] of [thread_pool] with its stop state. *)
Record jthread : Type := JThread {
  stop_requested : bool;
  at_point : control }.

(** A thread inside [Join(ts...)]. *)
Inductive join_point : Type :=
| JoinBlocked (notified : bool)
| JoinReturned.

Record joiner : Type := Joiner {
  join_keys : list K;
  join_at : join_point }.

Record state : Type := State {
  job_list : list (K * future W E);
  pending_job_count_map : gmap K N;
  in_progress_job_count_map : gmap K N;
  thread_pool : list jthread;
  (** threads that have called [Join], in call order *)
  join_callers : list joiner;
  (** the memory the jobs act on *)
  world : W;
  (** history: the entries taken off [job_list] by workers, in order *)
  dispatched : list (K * future W E);
  (** history: the entries whose [job.get()] has been called, in order *)
  executed : list (K * future W E);
  (** the exception that escaped a worker and ended the process *)
  terminated : option E }.

(** [m.contains(k)] and [m[k]] (read of the value, value-initialised to
    zero when the key is new). *)
Definition contains (m : gmap K N) (k : K) : bool :=
  match m !! k with Some _ => true | None => false end.
Definition at_key (m : gmap K N) (k : K) : N := default 0%N (m !! k).
Definition map_empty (m : gmap K N) : bool := bool_decide (m = ∅).

(** *** Condition variables *)

Definition wake_joiner (j : joiner) : joiner :=
  match join_at j with
  | JoinBlocked _ => Joiner (join_keys j) (JoinBlocked true)
  | JoinReturned => j
  end.

(** [join_condition_variable.notify_all()] *)
Definition notify_all_join (js : list joiner) : list joiner :=
  wake_joiner <$> js.

Definition wake_worker (t : jthread) : jthread :=
  match at_point t with
  | Waiting _ => JThread (stop_requested t) (Waiting true)
  | _ => t
  end.

Definition blocked (t : jthread) : bool :=
  match at_point t with Waiting false => true | _ => false end.

(** [job_condition_variable.notify_all()] *)
Definition notify_all_job (tp : list jthread) : list jthread :=
  wake_worker <$> tp.

(** [job_condition_variable.notify_one()]: when some worker is blocked, one
    of them is woken; [wake] is the scheduler's choice, which has to name a
    blocked worker whenever there is one. *)
Definition notify_one (wake : nat) (tp : list jthread) : option (list jthread) :=
  match tp !! wake with
  | Some t =>
      if blocked t then Some (<[wake := wake_worker t]> tp)
      else if existsb blocked tp then None else Some tp
  | None => if existsb blocked tp then None else Some tp
  end.

(** *** Construction and destruction *)

(** The constructor: [number_of_threads] workers, none of them begun
    past the head of its loop. *)
Definition AsyncJobQueue (number_of_threads : N) (w : W) : state :=
  {| job_list := [];
     pending_job_count_map := ∅;
     in_progress_job_count_map := ∅;
     thread_pool := replicate (N.to_nat number_of_threads) (JThread false LoopTop);
     join_callers := [];
     world := w;
     dispatched := [];
     executed := [];
     terminated := None |}.

(** The default argument, [std::thread::hardware_concurrency() * 2], in
    [unsigned int] arithmetic. *)
Definition default_number_of_threads (hardware_concurrency : N) : N :=
  ((hardware_concurrency * 2) mod 2 ^ 32)%N.

(** The destructor, [request_stop] on every thread and then
    [job_condition_variable.notify_all()], when its calls follow one another
    with no step of another thread in between and every waiting worker is
    blocked.  The calls take no lock: [request_stop], [destructor_notify]
    and [wait_raced] below are the calls one by one and the case in which
    they fall between a worker's test of its wait predicate and its
    blocking. *)
Definition destroy (s : state) : state :=
  {| job_list := job_list s;
     pending_job_count_map := pending_job_count_map s;
     in_progress_job_count_map := in_progress_job_count_map s;
     thread_pool :=
       notify_all_job ((λ t, JThread true (at_point t)) <$> thread_pool s);
     join_callers := join_callers s;
     world := world s;
     dispatched := dispatched s;
     executed := executed s;
     terminated := terminated s |}.

(** *** Submission *)

Definition submit (key : K) (job : future W E) (wake : nat) (s : state)
    : option state :=
  jl ← emplace_back (key, job) (job_list s);
  tp ← notify_one wake (thread_pool s);
  Some {| job_list := jl;
          pending_job_count_map :=
            <[key := size_incr (at_key (pending_job_count_map s) key)]>
              (pending_job_count_map s);
          in_progress_job_count_map := in_progress_job_count_map s;
          thread_pool := tp;
          join_callers := join_callers s;
          world := world s;
          dispatched := dispatched s;
          executed := executed s;
          terminated := terminated s |}.

Definition Add (key : K) (func : callable W E unit) (wake : nat) (s : state)
    : option state :=
  submit key (async_deferred (job_Add func)) wake s.

Definition AddWithCallback_void (key : K) (callback func : callable W E unit)
    (wake : nat) (s : state) : option state :=
  submit key (async_deferred (job_AddWithCallback_void callback func)) wake s.

Definition AddWithCallback {R : Type} (key : K)
    (callback : R → callable W E unit) (func : callable W E R)
    (wake : nat) (s : state) : option state :=
  submit key (async_deferred (job_AddWithCallback callback func)) wake s.

(** *** Ready, Join, Cancel *)

(** [Ready(ts...)]: the two fold expressions over the pack of keys. *)
Definition Ready (ts : list K) (s : state) : bool :=
  std_empty (job_list s)
  && forallb (λ t, negb (contains (pending_job_count_map s) t)) ts
  && forallb (λ t, negb (contains (in_progress_job_count_map s) t)) ts.

(** The predicate [Join(ts...)] waits for. *)
Definition Join_predicate (ts : list K) (s : state) : bool :=
  match ts with
  | [] => std_empty (job_list s)
          && map_empty (pending_job_count_map s)
          && map_empty (in_progress_job_count_map s)
  | _ :: _ => Ready ts s
  end.

Definition join_wait (ts : list K) (s : state) : join_point :=
  if Join_predicate ts s then JoinReturned else JoinBlocked false.

Definition set_join_callers (js : list joiner) (s : state) : state :=
  {| job_list := job_list s;
     pending_job_count_map := pending_job_count_map s;
     in_progress_job_count_map := in_progress_job_count_map s;
     thread_pool := thread_pool s;
     join_callers := js;
     world := world s;
     dispatched := dispatched s;
     executed := executed s;
     terminated := terminated s |}.

(** A call of [Join(ts...)]: lock, test the predicate, return or block. *)
Definition Join (ts : list K) (s : state) : state :=
  set_join_callers (join_callers s ++ [Joiner ts (join_wait ts s)]) s.

(** A notified caller of [Join] has the mutex again and tests once more. *)
Definition Join_resume (j : nat) (s : state) : option state :=
  match join_callers s !! j with
  | Some (Joiner ts (JoinBlocked true)) =>
      Some (set_join_callers
              (<[j := Joiner ts (join_wait ts s)]> (join_callers s)) s)
  | _ => None
  end.

(** [(pending_job_count_map.erase(ts), ...)] *)
Definition erase_keys (ts : list K) (m : gmap K N) : gmap K N :=
  foldl (λ acc t, delete t acc) m ts.

(** [Cancel(ts...)]: everything with no key at all, otherwise
    [std::erase_if] on the job store and the erase of each key. *)
Definition Cancel (ts : list K) (s : state) : state :=
  {| job_list :=
       match ts with
       | [] => []
       | _ :: _ => filter (λ t, t.1 ∉ ts) (job_list s)
       end;
     pending_job_count_map :=
       match ts with
       | [] => ∅
       | _ :: _ => erase_keys ts (pending_job_count_map s)
       end;
     in_progress_job_count_map := in_progress_job_count_map s;
     thread_pool := thread_pool s;
     join_callers := join_callers s;
     world := world s;
     dispatched := dispatched s;
     executed := executed s;
     terminated := terminated s |}.

(** *** The worker loop, [JobDispatcherThread] *)

Definition set_control (i : nat) (c : control) (tp : list jthread)
    : list jthread :=
  match tp !! i with
  | Some t => <[i := JThread (stop_requested t) c]> tp
  | None => tp
  end.

(** [job_condition_variable.wait(lk, pred)] followed by the test of
    line 156, for a worker that holds the mutex: where it goes next. *)
Definition wait_for_job (t : jthread) (s : state) : control :=
  if stop_requested t || negb (std_empty (job_list s))
  then if stop_requested t && std_empty (job_list s) then Exited else LoopTop
  else Waiting false.

(** Lines 167-174: [--pending_job_count_map[key]], erased at zero. *)
Definition take_pending (key : K) (m : gmap K N) : gmap K N :=
  let pending_job_count := size_decr (at_key m key) in
  if decide (pending_job_count = 0%N) then delete key m
  else <[key := pending_job_count]> m.

(** Lines 150-180, from the head of the loop to the first unlock or block. *)
Definition loop_head (i : nat) (t : jthread) (s : state) : state :=
  match job_list s with
  | [] =>
      {| job_list := [];
         pending_job_count_map := pending_job_count_map s;
         in_progress_job_count_map := in_progress_job_count_map s;
         thread_pool := set_control i (wait_for_job t s) (thread_pool s);
         join_callers := notify_all_join (join_callers s);
         world := world s;
         dispatched := dispatched s;
         executed := executed s;
         terminated := terminated s |}
  | (key, job) :: rest =>
      {| job_list := rest;
         pending_job_count_map := take_pending key (pending_job_count_map s);
         in_progress_job_count_map :=
           <[key := size_incr (at_key (in_progress_job_count_map s) key)]>
             (in_progress_job_count_map s);
         thread_pool := set_control i (Running key job) (thread_pool s);
         join_callers := join_callers s;
         world := world s;
         dispatched := dispatched s ++ [(key, job)];
         executed := executed s;
         terminated := terminated s |}
  end.

(** A notified worker inside the wait of line 154 has the mutex again. *)
Definition wait_resume (i : nat) (t : jthread) (s : state) : state :=
  {| job_list := job_list s;
     pending_job_count_map := pending_job_count_map s;
     in_progress_job_count_map := in_progress_job_count_map s;
     thread_pool := set_control i (wait_for_job t s) (thread_pool s);
     join_callers := join_callers s;
     world := world s;
     dispatched := dispatched s;
     executed := executed s;
     terminated := terminated s |}.

(** Line 182, [job.get()], with no lock held.  No handler encloses the
    call: an exception leaves the thread function, and the process ends
    in [std::terminate]. *)
Definition run_job (i : nat) (key : K) (job : future W E) (s : state) : state :=
  match get job (world s) with
  | (Returned _, w') =>
      {| job_list := job_list s;
         pending_job_count_map := pending_job_count_map s;
         in_progress_job_count_map := in_progress_job_count_map s;
         thread_pool := set_control i (Finishing key) (thread_pool s);
         join_callers := join_callers s;
         world := w';
         dispatched := dispatched s;
         executed := executed s ++ [(key, job)];
         terminated := terminated s |}
  | (Thrown e, w') =>
      {| job_list := job_list s;
         pending_job_count_map := pending_job_count_map s;
         in_progress_job_count_map := in_progress_job_count_map s;
         thread_pool := thread_pool s;
         join_callers := join_callers s;
         world := w';
         dispatched := dispatched s;
         executed := executed s ++ [(key, job)];
         terminated := Some e |}
  end.

(** Lines 184-196: the accounting after the job.  [in_progress_job_count]
    is the reference bound at line 176; the entry it refers to is erased
    only at a count of zero, which cannot happen while this worker is
    counted in it (lemma [taken_key_has_entry]), so the entry is read here
    through its key. *)
Definition finish_job (i : nat) (key : K) (s : state) : state :=
  let in_progress_job_count :=
    size_decr (at_key (in_progress_job_count_map s) key) in
  {| job_list := job_list s;
     pending_job_count_map := pending_job_count_map s;
     in_progress_job_count_map :=
       if decide (in_progress_job_count = 0%N)
       then delete key (in_progress_job_count_map s)
       else <[key := in_progress_job_count]> (in_progress_job_count_map s);
     thread_pool := set_control i LoopTop (thread_pool s);
     join_callers :=
       if decide (in_progress_job_count = 0%N)
       then if contains (pending_job_count_map s) key
            then join_callers s
            else notify_all_join (join_callers s)
       else join_callers s;
     world := world s;
     dispatched := dispatched s;
     executed := executed s;
     terminated := terminated s |}.

(** One atomic step of worker [i]; [None] when the worker cannot move. *)
Definition JobDispatcherThread (i : nat) (s : state) : option state :=
  t ← thread_pool s !! i;
  match at_point t with
  | LoopTop => Some (loop_head i t s)
  | Waiting true => Some (wait_resume i t s)
  | Waiting false => None
  | Running key job => Some (run_job i key job s)
  | Finishing key => Some (finish_job i key s)
  | Exited => None
  end.

(** *** Executions *)

Inductive label : Type :=
| CallAdd (key : K) (func : callable W E unit) (wake : nat)
| CallAddWithCallbackVoid (key : K) (callback func : callable W E unit)
    (wake : nat)
| CallAddWithCallback (R : Type) (key : K)
    (callback : R → callable W E unit) (func : callable W E R) (wake : nat)
| CallJoin (ts : list K)
| CallCancel (ts : list K)
| CallDestructor
| WorkerStep (i : nat)
| JoinerStep (j : nat)
| SpuriousWorker (i : nat)
| SpuriousJoiner (j : nat)
| RequestStop (i : nat)
| DestructorNotify
| DestructorNotifyRaced (i : nat).

Definition set_thread_pool (tp : list jthread) (s : state) : state :=
  {| job_list := job_list s;
     pending_job_count_map := pending_job_count_map s;
     in_progress_job_count_map := in_progress_job_count_map s;
     thread_pool := tp;
     join_callers := join_callers s;
     world := world s;
     dispatched := dispatched s;
     executed := executed s;
     terminated := terminated s |}.

Definition spurious_worker (i : nat) (s : state) : option state :=
  t ← thread_pool s !! i;
  if blocked t
  then Some (set_thread_pool (<[i := wake_worker t]> (thread_pool s)) s)
  else None.

Definition spurious_joiner (j : nat) (s : state) : option state :=
  c ← join_callers s !! j;
  match join_at c with
  | JoinBlocked false =>
      Some (set_join_callers (<[j := wake_joiner c]> (join_callers s)) s)
  | _ => None
  end.

(** *** The destructor, call by call

    The destructor holds no lock.  Its calls can therefore be separated by
    steps of other threads, and they can fall between a worker's test of
    its wait predicate (line 154, under the lock) and the moment the worker
    blocks. *)

(** [t.request_stop()] on thread [i]; the loop of the destructor comes to
    thread [i] after the threads before it. *)
Definition request_stop (i : nat) (s : state) : option state :=
  t ← thread_pool s !! i;
  if forallb stop_requested (take i (thread_pool s))
  then Some (set_thread_pool
               (<[i := JThread true (at_point t)]> (thread_pool s)) s)
  else None.

(** [job_condition_variable.notify_all()] of the destructor, after its
    loop, when every waiting worker is blocked. *)
Definition destructor_notify (s : state) : option state :=
  if forallb stop_requested (thread_pool s)
  then Some (set_thread_pool (notify_all_job (thread_pool s)) s)
  else None.

(** A notification that does not reach worker [i], which blocks after it. *)
Definition miss_worker (i : nat) (s : state) : state :=
  set_thread_pool (set_control i (Waiting false) (thread_pool s)) s.

(** The race of the destructor with the wait of worker [i].  The worker
    tests its predicate under the lock and finds it false (no stop yet, no
    job); before it blocks, the destructor, which takes no lock, makes the
    [request_stop] calls it has not made yet and its [notify_all].  The
    notification reaches the workers that are blocked, not worker [i], which
    then blocks with its stop requested and nobody left to wake it. *)
Definition wait_raced (i : nat) (s : state) : option state :=
  t ← thread_pool s !! i;
  match wait_for_job t s with
  | Waiting false =>
      match at_point t with
      | LoopTop => Some (miss_worker i (destroy (loop_head i t s)))
      | Waiting true => Some (miss_worker i (destroy (wait_resume i t s)))
      | _ => None
      end
  | _ => None
  end.

(** Nothing moves once the process has been terminated. *)
Definition step (l : label) (s : state) : option state :=
  match terminated s with
  | Some _ => None
  | None =>
      match l with
      | CallAdd key func wake => Add key func wake s
      | CallAddWithCallbackVoid key callback func wake =>
          AddWithCallback_void key callback func wake s
      | CallAddWithCallback R key callback func wake =>
          AddWithCallback key callback func wake s
      | CallJoin ts => Some (Join ts s)
      | CallCancel ts => Some (Cancel ts s)
      | CallDestructor => Some (destroy s)
      | WorkerStep i => JobDispatcherThread i s
      | JoinerStep j => Join_resume j s
      | SpuriousWorker i => spurious_worker i s
      | SpuriousJoiner j => spurious_joiner j s
      | RequestStop i => request_stop i s
      | DestructorNotify => destructor_notify s
      | DestructorNotifyRaced i => wait_raced i s
      end
  end.

Fixpoint run (ls : list label) (s : state) : option state :=
  match ls with
  | [] => Some s
  | l :: ls' => s' ← step l s; run ls' s'
  end.

(** The states of an execution that starts with the construction of a
    pool; the number of threads is a [std::size_t]. *)
Definition reachable (s : state) : Prop :=
  ∃ (number_of_threads : N) (w : W) (ls : list label),
    (number_of_threads ≤ SIZE_MAX)%N
    ∧ run ls (AsyncJobQueue number_of_threads w) = Some s.

(** The steps the code itself is bound to take: a worker that is not
    blocked, or a caller of [Join] that has been notified. *)
Definition own_step (l : label) : bool :=
  match l with
  | WorkerStep _ | JoinerStep _ => true
  | _ => false
  end.

(** The submissions of an execution, in call order. *)
Definition submission (l : label) : option (K * future W E) :=
  match l with
  | CallAdd key func _ => Some (key, async_deferred (job_Add func))
  | CallAddWithCallbackVoid key callback func _ =>
      Some (key, async_deferred (job_AddWithCallback_void callback func))
  | CallAddWithCallback R key callback func _ =>
      Some (key, async_deferred (job_AddWithCallback callback func))
  | _ => None
  end.

Definition submissions (ls : list label) : list (K * future W E) :=
  omap submission ls.

Definition is_cancel (l : label) : bool :=
  match l with CallCancel _ => true | _ => false end.

(** *** What the two maps are meant to count *)

(** The entries of the job store that carry key [k]. *)
Definition key_jobs (k : K) (l : list (K * future W E)) : nat :=
  sum_list_with (λ e, if decide (e.1 = k) then 1 else 0) l.

(** Whether a worker has taken a job of key [k] and not yet accounted for
    its end. *)
Definition holding (k : K) (t : jthread) : nat :=
  match at_point t with
  | Running key _ | Finishing key => if decide (key = k) then 1 else 0
  | _ => 0
  end.

Definition key_workers (k : K) (tp : list jthread) : nat :=
  sum_list_with (holding k) tp.

(** The job a worker has taken and whose [job.get()] it has not called
    yet, and those jobs over the pool. *)
Definition running (t : jthread) : option (K * future W E) :=
  match at_point t with
  | Running key job => Some (key, job)
  | _ => None
  end.

Definition in_flight (tp : list jthread) : list (K * future W E) :=
  omap running tp.

(** With at most one worker, a job is run as soon as it has been taken. *)
Definition run_at_once (s : state) : Prop :=
  length (thread_pool s) ≤ 1
  ∧ (terminated s = None →
     executed s ++ in_flight (thread_pool s) = dispatched s).

(** A count as a sparse map stores it: no entry for zero. *)
Definition sparse (c : nat) : option N :=
  match c with O => None | S _ => Some (N.of_nat c) end.

Record accounted (s : state) : Prop := Accounted {
  acc_pending :
    ∀ k, pending_job_count_map s !! k = sparse (key_jobs k (job_list s));
  acc_in_progress :
    ∀ k, in_progress_job_count_map s !! k
         = sparse (key_workers k (thread_pool s));
  acc_jobs : (N.of_nat (length (job_list s)) ≤ SIZE_MAX)%N;
  acc_threads : (N.of_nat (length (thread_pool s)) ≤ SIZE_MAX)%N }.

(** *** Vocabulary for further properties *)

(** The keys [Cancel(ts...)] cancels: every key when [ts] is empty. *)
Definition cancelled (ts : list K) (k : K) : Prop := ts = [] ∨ k ∈ ts.

(** A job that returns normally from every memory. *)
Definition returns_normally (job : future W E) : Prop :=
  ∀ w, ∃ w', get job w = (Returned (), w').

(** The memory after the jobs of [jl] have run one after the other. *)
Definition run_jobs (jl : list (K * future W E)) (w : W) : W :=
  foldl (λ w e, (get e.2 w).2) w jl.

(** No caller of [Join] sleeps, un-notified, over a predicate that holds. *)
Definition no_sleeper (s : state) : Prop :=
  ∀ j c, join_callers s !! j = Some c → join_at c = JoinBlocked false →
         Join_predicate (join_keys c) s = false.

(** Whether the step [l] is a worker taking an entry from the job store
    (the branch of lines 161-180). *)
Definition takes (l : label) (s : state) : bool :=
  match l with
  | WorkerStep i =>
      match thread_pool s !! i with
      | Some t =>
          match at_point t with
          | LoopTop => negb (std_empty (job_list s))
          | _ => false
          end
      | None => false
      end
  | _ => false
  end.

(** Every entry taken has been run once or is about to be run. *)
Definition run_once (s : state) : Prop :=
  terminated s = None →
  executed s ++ in_flight (thread_pool s) ≡ₚ dispatched s.

(** A worker that holds no job. *)
Definition idle (t : jthread) : Prop :=
  match at_point t with
  | Running _ _ | Finishing _ => False
  | _ => True
  end.
End Queue.
End Keyed.

(** * The queue without keys, [AsyncJobQueue<NoKey>] *)

Module NoKey.
Section Queue.
Context {W E : Type}.

(** Where a worker stands in [JobDispatcherThread]. *)
Inductive control : Type :=
| LoopTop                         (* about to lock, line 44 *)
| Waiting (notified : bool)       (* inside the wait of line 54 *)
| Running (job : future W E)      (* unlocked, before [job.get()] *)
| Exited.                         (* left the loop by [break] *)

Record jthread : Type := JThread {
  stop_requested : bool;
  at_point : control }.

(** A thread inside [Join()]. *)
Inductive join_point : Type :=
| JoinBlocked (notified : bool)
| JoinReturned.

Record state : Type := State {
  job_queue : list (future W E);
  thread_pool : list jthread;
  number_of_busy_threads : N;
  join_callers : list join_point;
  world : W;
  (** history: the jobs taken off [job_queue] by workers, in order *)
  dispatched : list (future W E);
  (** history: the entries whose [job.get()] has been called, in order *)
  executed : list (future W E);
  terminated : option E }.

Definition wake_joiner (j : join_point) : join_point :=
  match j with JoinBlocked _ => JoinBlocked true | JoinReturned => j end.

Definition notify_all_join (js : list join_point) : list join_point :=
  wake_joiner <$> js.

Definition wake_worker (t : jthread) : jthread :=
  match at_point t with
  | Waiting _ => JThread (stop_requested t) (Waiting true)
  | _ => t
  end.

Definition blocked (t : jthread) : bool :=
  match at_point t with Waiting false => true | _ => false end.

Definition notify_all_job (tp : list jthread) : list jthread :=
  wake_worker <$> tp.

Definition notify_one (wake : nat) (tp : list jthread) : option (list jthread) :=
  match tp !! wake with
  | Some t =>
      if blocked t then Some (<[wake := wake_worker t]> tp)
      else if existsb blocked tp then None else Some tp
  | None => if existsb blocked tp then None else Some tp
  end.

(** The constructor: every thread counts as busy from the start. *)
Definition AsyncJobQueue (number_of_threads : N) (w : W) : state :=
  {| job_queue := [];
     thread_pool := replicate (N.to_nat number_of_threads) (JThread false LoopTop);
     number_of_busy_threads := number_of_threads;
     join_callers := [];
     world := w;
     dispatched := [];
     executed := [];
     terminated := None |}.

(** The destructor when its calls follow one another with no step of
    another thread in between and every waiting worker is blocked; the calls
    one by one and their race with a worker's wait are [request_stop],
    [destructor_notify] and [wait_raced] below. *)
Definition destroy (s : state) : state :=
  {| job_queue := job_queue s;
     thread_pool :=
       notify_all_job ((λ t, JThread true (at_point t)) <$> thread_pool s);
     number_of_busy_threads := number_of_busy_threads s;
     join_callers := join_callers s;
     world := world s;
     dispatched := dispatched s;
     executed := executed s;
     terminated := terminated s |}.

Definition submit (job : future W E) (wake : nat) (s : state) : option state :=
  jq ← emplace_back job (job_queue s);
  tp ← notify_one wake (thread_pool s);
  Some {| job_queue := jq;
          thread_pool := tp;
          number_of_busy_threads := number_of_busy_threads s;
          join_callers := join_callers s;
          world := world s;
          dispatched := dispatched s;
          executed := executed s;
          terminated := terminated s |}.

Definition Add (func : callable W E unit) (wake : nat) (s : state)
    : option state :=
  submit (async_deferred (job_Add func)) wake s.

Definition AddWithCallback_void (callback func : callable W E unit)
    (wake : nat) (s : state) : option state :=
  submit (async_deferred (job_AddWithCallback_void callback func)) wake s.

Definition AddWithCallback {R : Type}
    (callback : R → callable W E unit) (func : callable W E R)
    (wake : nat) (s : state) : option state :=
  submit (async_deferred (job_AddWithCallback callback func)) wake s.

(** The predicate [Join()] waits for, line 28. *)
Definition Join_predicate (s : state) : bool :=
  bool_decide (number_of_busy_threads s = 0%N).

Definition join_wait (s : state) : join_point :=
  if Join_predicate s then JoinReturned else JoinBlocked false.

(** A call of [Join()]: [job_condition_variable.notify_all()], lock, test
    the predicate, return or block. *)
Definition Join (s : state) : state :=
  {| job_queue := job_queue s;
     thread_pool := notify_all_job (thread_pool s);
     number_of_busy_threads := number_of_busy_threads s;
     join_callers := join_callers s ++ [join_wait s];
     world := world s;
     dispatched := dispatched s;
     executed := executed s;
     terminated := terminated s |}.

Definition Join_resume (j : nat) (s : state) : option state :=
  match join_callers s !! j with
  | Some (JoinBlocked true) =>
      Some {| job_queue := job_queue s;
              thread_pool := thread_pool s;
              number_of_busy_threads := number_of_busy_threads s;
              join_callers := <[j := join_wait s]> (join_callers s);
              world := world s;
              dispatched := dispatched s;
              executed := executed s;
              terminated := terminated s |}
  | _ => None
  end.

(** [Cancel()]: the queue is swapped with an empty one. *)
Definition Cancel (s : state) : state :=
  {| job_queue := [];
     thread_pool := thread_pool s;
     number_of_busy_threads := number_of_busy_threads s;
     join_callers := join_callers s;
     world := world s;
     dispatched := dispatched s;
     executed := executed s;
     terminated := terminated s |}.

Definition set_control (i : nat) (c : control) (tp : list jthread)
    : list jthread :=
  match tp !! i with
  | Some t => <[i := JThread (stop_requested t) c]> tp
  | None => tp
  end.

(** Lines 54-61 for a worker that holds the mutex: where it goes next and
    the busy count it leaves ([++number_of_busy_threads] when it goes on). *)
Definition wait_for_job (t : jthread) (busy : N) (s : state) : control * N :=
  if stop_requested t || negb (std_empty (job_queue s))
  then if stop_requested t && std_empty (job_queue s)
       then (Exited, busy)
       else (LoopTop, size_incr busy)
  else (Waiting false, busy).

(** Lines 44-69, from the head of the loop to the first unlock or block. *)
Definition loop_head (i : nat) (t : jthread) (s : state) : state :=
  match job_queue s with
  | [] =>
      let busy := size_decr (number_of_busy_threads s) in
      let next := wait_for_job t busy s in
      {| job_queue := [];
         thread_pool := set_control i next.1 (thread_pool s);
         number_of_busy_threads := next.2;
         join_callers :=
           if decide (busy = 0%N) then notify_all_join (join_callers s)
           else join_callers s;
         world := world s;
         dispatched := dispatched s;
         executed := executed s;
         terminated := terminated s |}
  | job :: rest =>
      {| job_queue := rest;
         thread_pool := set_control i (Running job) (thread_pool s);
         number_of_busy_threads := number_of_busy_threads s;
         join_callers := join_callers s;
         world := world s;
         dispatched := dispatched s ++ [job];
         executed := executed s;
         terminated := terminated s |}
  end.

Definition wait_resume (i : nat) (t : jthread) (s : state) : state :=
  let next := wait_for_job t (number_of_busy_threads s) s in
  {| job_queue := job_queue s;
     thread_pool := set_control i next.1 (thread_pool s);
     number_of_busy_threads := next.2;
     join_callers := join_callers s;
     world := world s;
     dispatched := dispatched s;
     executed := executed s;
     terminated := terminated s |}.

(** Line 71, [job.get()], with no lock held and no handler around it. *)
Definition run_job (i : nat) (job : future W E) (s : state) : state :=
  match get job (world s) with
  | (Returned _, w') =>
      {| job_queue := job_queue s;
         thread_pool := set_control i LoopTop (thread_pool s);
         number_of_busy_threads := number_of_busy_threads s;
         join_callers := join_callers s;
         world := w';
         dispatched := dispatched s;
         executed := executed s ++ [job];
         terminated := terminated s |}
  | (Thrown e, w') =>
      {| job_queue := job_queue s;
         thread_pool := thread_pool s;
         number_of_busy_threads := number_of_busy_threads s;
         join_callers := join_callers s;
         world := w';
         dispatched := dispatched s;
         executed := executed s ++ [job];
         terminated := Some e |}
  end.

Definition JobDispatcherThread (i : nat) (s : state) : option state :=
  t ← thread_pool s !! i;
  match at_point t with
  | LoopTop => Some (loop_head i t s)
  | Waiting true => Some (wait_resume i t s)
  | Waiting false => None
  | Running job => Some (run_job i job s)
  | Exited => None
  end.

Inductive label : Type :=
| CallAdd (func : callable W E unit) (wake : nat)
| CallAddWithCallbackVoid (callback func : callable W E unit) (wake : nat)
| CallAddWithCallback (R : Type)
    (callback : R → callable W E unit) (func : callable W E R) (wake : nat)
| CallJoin
| CallCancel
| CallDestructor
| WorkerStep (i : nat)
| JoinerStep (j : nat)
| RequestStop (i : nat)
| DestructorNotify
| DestructorNotifyRaced (i : nat).

Definition set_thread_pool (tp : list jthread) (s : state) : state :=
  {| job_queue := job_queue s;
     thread_pool := tp;
     number_of_busy_threads := number_of_busy_threads s;
     join_callers := join_callers s;
     world := world s;
     dispatched := dispatched s;
     executed := executed s;
     terminated := terminated s |}.

(** The destructor, call by call: it holds no lock (lines 12-20). *)

(** [t.request_stop()] on thread [i], after the threads before it. *)
Definition request_stop (i : nat) (s : state) : option state :=
  t ← thread_pool s !! i;
  if forallb stop_requested (take i (thread_pool s))
  then Some (set_thread_pool
               (<[i := JThread true (at_point t)]> (thread_pool s)) s)
  else None.

(** [job_condition_variable.notify_all()] of the destructor, when every
    waiting worker is blocked. *)
Definition destructor_notify (s : state) : option state :=
  if forallb stop_requested (thread_pool s)
  then Some (set_thread_pool (notify_all_job (thread_pool s)) s)
  else None.

(** A notification that does not reach worker [i], which blocks after it. *)
Definition miss_worker (i : nat) (s : state) : state :=
  set_thread_pool (set_control i (Waiting false) (thread_pool s)) s.

(** The race of the destructor with the wait of worker [i]: the worker has
    found its predicate false under the lock (line 54); before it blocks,
    the destructor makes its outstanding [request_stop] calls and its
    [notify_all], which does not reach worker [i]. *)
Definition wait_raced (i : nat) (s : state) : option state :=
  t ← thread_pool s !! i;
  match at_point t with
  | LoopTop =>
      match (wait_for_job t (size_decr (number_of_busy_threads s)) s).1 with
      | Waiting false => Some (miss_worker i (destroy (loop_head i t s)))
      | _ => None
      end
  | Waiting true =>
      match (wait_for_job t (number_of_busy_threads s) s).1 with
      | Waiting false => Some (miss_worker i (destroy (wait_resume i t s)))
      | _ => None
      end
  | _ => None
  end.

Definition step (l : label) (s : state) : option state :=
  match terminated s with
  | Some _ => None
  | None =>
      match l with
      | CallAdd func wake => Add func wake s
      | CallAddWithCallbackVoid callback func wake =>
          AddWithCallback_void callback func wake s
      | CallAddWithCallback R callback func wake =>
          AddWithCallback callback func wake s
      | CallJoin => Some (Join s)
      | CallCancel => Some (Cancel s)
      | CallDestructor => Some (destroy s)
      | WorkerStep i => JobDispatcherThread i s
      | JoinerStep j => Join_resume j s
      | RequestStop i => request_stop i s
      | DestructorNotify => destructor_notify s
      | DestructorNotifyRaced i => wait_raced i s
      end
  end.

Fixpoint run (ls : list label) (s : state) : option state :=
  match ls with
  | [] => Some s
  | l :: ls' => s' ← step l s; run ls' s'
  end.

(** The states of an execution that starts with the construction of a
    pool. *)
Definition reachable (s : state) : Prop :=
  ∃ (number_of_threads : N) (w : W) (ls : list label),
    (number_of_threads ≤ SIZE_MAX)%N
    ∧ run ls (AsyncJobQueue number_of_threads w) = Some s.

(** The submissions of an execution, in call order. *)
Definition submission (l : label) : option (future W E) :=
  match l with
  | CallAdd func _ => Some (async_deferred (job_Add func))
  | CallAddWithCallbackVoid callback func _ =>
      Some (async_deferred (job_AddWithCallback_void callback func))
  | CallAddWithCallback R callback func _ =>
      Some (async_deferred (job_AddWithCallback callback func))
  | _ => None
  end.

Definition submissions (ls : list label) : list (future W E) :=
  omap submission ls.

Definition is_cancel (l : label) : bool :=
  match l with CallCancel => true | _ => false end.

(** The steps the queue takes by itself: those of its workers and of the
    callers inside [Join()]. *)
Definition own_step (l : label) : bool :=
  match l with
  | WorkerStep _ | JoinerStep _ => true
  | _ => false
  end.

(** *** What [number_of_busy_threads] is meant to count *)

(** A thread that is neither inside the wait of line 54 nor out of its
    loop. *)
Definition busy (t : jthread) : nat :=
  match at_point t with
  | LoopTop | Running _ => 1
  | Waiting _ | Exited => 0
  end.

Definition busy_count (tp : list jthread) : nat := sum_list_with busy tp.

Record counted (s : state) : Prop := Counted {
  cnt_busy : number_of_busy_threads s = N.of_nat (busy_count (thread_pool s));
  cnt_threads : (N.of_nat (length (thread_pool s)) ≤ SIZE_MAX)%N }.
End Queue.
End NoKey.

(** * Observing the calls a job makes

    To count the calls of a job's callables, each of them is wrapped so that
    it records its own invocation in a trace kept next to the user's
    memory. *)

Inductive invocation (R : Type) : Type :=
| CalledFunc
| CalledCallback (argument : R).
Arguments CalledFunc {R}.
Arguments CalledCallback {R} argument.

Definition traced_func {W E R : Type} (func : callable W E R)
    : callable (W * list (invocation R)) E R :=
  λ m, let '(o, w') := func m.1 in (o, (w', m.2 ++ [CalledFunc])).

Definition traced_callback {W E R : Type} (callback : R → callable W E unit)
    : R → callable (W * list (invocation R)) E unit :=
  λ r m, let '(o, w') := callback r m.1 in (o, (w', m.2 ++ [CalledCallback r])).

(** * Concrete pools

    Keys are strings, the user's memory is a counter, exceptions are
    strings. *)

Module Examples.
Open Scope string_scope.

(** A job body that increments the counter. *)
Definition bump : callable nat string unit := λ w, (Returned (), S w).

(** A job body that throws. *)
Definition boom : callable nat string unit := λ w, (Thrown "boom", w).

(** A job body that doubles the counter: run before or after [bump], it
    leaves a different count. *)
Definition double : callable nat string unit := λ w, (Returned (), w + w).

Definition add_ticket : nat → callable nat string unit :=
  λ r w, (Returned (), w + r).

(** One worker has taken the only job, of key ["A"], and has not run it. *)
Definition one_running : @Keyed.state string _ _ nat string :=
  {| Keyed.job_list := [];
     Keyed.pending_job_count_map := ∅;
     Keyed.in_progress_job_count_map := {[ "A" := 1%N ]};
     Keyed.thread_pool :=
       [Keyed.JThread false (Keyed.Running "A" (async_deferred (job_Add bump)))];
     Keyed.join_callers := [];
     Keyed.world := 0;
     Keyed.dispatched := [("A", async_deferred (job_Add bump))];
     Keyed.executed := [];
     Keyed.terminated := None |}.

(** The only worker sleeps, the job store has been emptied by [Cancel],
    and a caller of [Join("A")] is blocked without a notification. *)
Definition lost_wakeup : @Keyed.state string _ _ nat string :=
  {| Keyed.job_list := [];
     Keyed.pending_job_count_map := ∅;
     Keyed.in_progress_job_count_map := ∅;
     Keyed.thread_pool := [Keyed.JThread false (Keyed.Waiting false)];
     Keyed.join_callers := [Keyed.Joiner ["A"] (Keyed.JoinBlocked false)];
     Keyed.world := 0;
     Keyed.dispatched := [];
     Keyed.executed := [];
     Keyed.terminated := None |}.

(** A job threw on worker 0 while a job of key ["B"] was still queued and
    worker 1 stood at the head of its loop. *)
Definition after_throw : @Keyed.state string _ _ nat string :=
  {| Keyed.job_list := [("B", async_deferred (job_Add bump))];
     Keyed.pending_job_count_map := {[ "B" := 1%N ]};
     Keyed.in_progress_job_count_map := {[ "A" := 1%N ]};
     Keyed.thread_pool :=
       [Keyed.JThread false (Keyed.Running "A" (async_deferred (job_Add boom)));
        Keyed.JThread false Keyed.LoopTop];
     Keyed.join_callers := [];
     Keyed.world := 0;
     Keyed.dispatched := [("A", async_deferred (job_Add boom))];
     Keyed.executed := [("A", async_deferred (job_Add boom))];
     Keyed.terminated := Some "boom" |}.

(** The no-key pool after its only worker went to sleep, a job was added
    and [Join()] was called. *)
Definition joined_too_early : @NoKey.state nat string :=
  {| NoKey.job_queue := [async_deferred (job_Add bump)];
     NoKey.thread_pool := [NoKey.JThread false (NoKey.Waiting true)];
     NoKey.number_of_busy_threads := 0;
     NoKey.join_callers := [NoKey.JoinReturned];
     NoKey.world := 0;
     NoKey.dispatched := [];
     NoKey.executed := [];
     NoKey.terminated := None |}.

(** A pool without threads after one submission. *)
Definition zero_threads_one_job : @Keyed.state string _ _ nat string :=
  {| Keyed.job_list := [("A", async_deferred (job_Add bump))];
     Keyed.pending_job_count_map := {[ "A" := 1%N ]};
     Keyed.in_progress_job_count_map := ∅;
     Keyed.thread_pool := [];
     Keyed.join_callers := [];
     Keyed.world := 0;
     Keyed.dispatched := [];
     Keyed.executed := [];
     Keyed.terminated := None |}.

(** One worker, one job queued, and the destructor has requested stop
    before the worker looked at the job store. *)
Definition stopped_with_job : @Keyed.state string _ _ nat string :=
  {| Keyed.job_list := [("A", async_deferred (job_Add bump))];
     Keyed.pending_job_count_map := {[ "A" := 1%N ]};
     Keyed.in_progress_job_count_map := ∅;
     Keyed.thread_pool := [Keyed.JThread true Keyed.LoopTop];
     Keyed.join_callers := [];
     Keyed.world := 0;
     Keyed.dispatched := [];
     Keyed.executed := [];
     Keyed.terminated := None |}.


(** ... and has run it, accounted for it and left its loop. *)
Definition stopped_drained : @Keyed.state string _ _ nat string :=
  {| Keyed.job_list := [];
     Keyed.pending_job_count_map := ∅;
     Keyed.in_progress_job_count_map := ∅;
     Keyed.thread_pool := [Keyed.JThread true Keyed.Exited];
     Keyed.join_callers := [];
     Keyed.world := 1;
     Keyed.dispatched := [("A", async_deferred (job_Add bump))];
     Keyed.executed := [("A", async_deferred (job_Add bump))];
     Keyed.terminated := None |}.

(** [after_throw] one step earlier: worker 0 is about to run the job that
    throws. *)
Definition before_throw : @Keyed.state string _ _ nat string :=
  {| Keyed.job_list := [("B", async_deferred (job_Add bump))];
     Keyed.pending_job_count_map := {[ "B" := 1%N ]};
     Keyed.in_progress_job_count_map := {[ "A" := 1%N ]};
     Keyed.thread_pool :=
       [Keyed.JThread false (Keyed.Running "A" (async_deferred (job_Add boom)));
        Keyed.JThread false Keyed.LoopTop];
     Keyed.join_callers := [];
     Keyed.world := 0;
     Keyed.dispatched := [("A", async_deferred (job_Add boom))];
     Keyed.executed := [];
     Keyed.terminated := None |}.



(** One worker at the head of its loop, a job of key ["A"] and a job of
    key ["B"] queued. *)
Definition two_queued : @Keyed.state string _ _ nat string :=
  {| Keyed.job_list :=
       [("A", async_deferred (job_Add bump));
        ("B", async_deferred (job_Add bump))];
     Keyed.pending_job_count_map := {[ "A" := 1%N; "B" := 1%N ]};
     Keyed.in_progress_job_count_map := ∅;
     Keyed.thread_pool := [Keyed.JThread false Keyed.LoopTop];
     Keyed.join_callers := [];
     Keyed.world := 0;
     Keyed.dispatched := [];
     Keyed.executed := [];
     Keyed.terminated := None |}.

(** One worker at the head of its loop, a job of key ["A"] queued, and a
    caller blocked in [Join("A")]. *)
Definition joiner_waiting : @Keyed.state string _ _ nat string :=
  {| Keyed.job_list := [("A", async_deferred (job_Add bump))];
     Keyed.pending_job_count_map := {[ "A" := 1%N ]};
     Keyed.in_progress_job_count_map := ∅;
     Keyed.thread_pool := [Keyed.JThread false Keyed.LoopTop];
     Keyed.join_callers := [Keyed.Joiner ["A"] (Keyed.JoinBlocked false)];
     Keyed.world := 0;
     Keyed.dispatched := [];
     Keyed.executed := [];
     Keyed.terminated := None |}.

(** A function that throws instead of returning a ticket, and a worker
    that has taken the job of
    [AddWithCallback("A", add_ticket, lost_ticket)]. *)
Definition lost_ticket : callable nat string nat := λ w, (Thrown "lost", w).

Definition lost_ticket_job : future (nat * list (invocation nat)) string :=
  async_deferred
    (job_AddWithCallback (traced_callback add_ticket) (traced_func lost_ticket)).

Definition lost_ticket_running
    : @Keyed.state string _ _ (nat * list (invocation nat)) string :=
  {| Keyed.job_list := [];
     Keyed.pending_job_count_map := ∅;
     Keyed.in_progress_job_count_map := {[ "A" := 1%N ]};
     Keyed.thread_pool :=
       [Keyed.JThread false (Keyed.Running "A" lost_ticket_job)];
     Keyed.join_callers := [];
     Keyed.world := (5, []);
     Keyed.dispatched := [("A", lost_ticket_job)];
     Keyed.executed := [];
     Keyed.terminated := None |}.

(** [joiner_waiting] after the worker has taken the job, run it, accounted
    for it and gone to sleep: the caller of [Join("A")] has been notified
    and has not run yet. *)
Definition joiner_notified : @Keyed.state string _ _ nat string :=
  {| Keyed.job_list := [];
     Keyed.pending_job_count_map := ∅;
     Keyed.in_progress_job_count_map := ∅;
     Keyed.thread_pool := [Keyed.JThread false (Keyed.Waiting false)];
     Keyed.join_callers := [Keyed.Joiner ["A"] (Keyed.JoinBlocked true)];
     Keyed.world := 1;
     Keyed.dispatched := [("A", async_deferred (job_Add bump))];
     Keyed.executed := [("A", async_deferred (job_Add bump))];
     Keyed.terminated := None |}.

(** Two workers.  [Add("A", double)] came before [Add("B", bump)]; worker 0
    took the job of ["A"], worker 1 took the job of ["B"] and ran it, and
    only then worker 0 ran its job: the counter, which started at 0, stands
    at 2, not at 1. *)
Definition ran_out_of_order : @Keyed.state string _ _ nat string :=
  {| Keyed.job_list := [];
     Keyed.pending_job_count_map := ∅;
     Keyed.in_progress_job_count_map := {[ "A" := 1%N; "B" := 1%N ]};
     Keyed.thread_pool :=
       [Keyed.JThread false (Keyed.Finishing "A");
        Keyed.JThread false (Keyed.Finishing "B")];
     Keyed.join_callers := [];
     Keyed.world := 2;
     Keyed.dispatched :=
       [("A", async_deferred (job_Add double));
        ("B", async_deferred (job_Add bump))];
     Keyed.executed :=
       [("B", async_deferred (job_Add bump));
        ("A", async_deferred (job_Add double))];
     Keyed.terminated := None |}.

(** One worker, three submissions under two keys, from a counter of 3: the
    worker has run the first job, has taken the second and has not run it;
    the third is queued. *)
Definition fifo_one_worker : @Keyed.state string _ _ nat string :=
  {| Keyed.job_list := [("A", async_deferred (job_Add bump))];
     Keyed.pending_job_count_map := {[ "A" := 1%N ]};
     Keyed.in_progress_job_count_map := {[ "B" := 1%N ]};
     Keyed.thread_pool :=
       [Keyed.JThread false (Keyed.Running "B" (async_deferred (job_Add bump)))];
     Keyed.join_callers := [];
     Keyed.world := 6;
     Keyed.dispatched :=
       [("A", async_deferred (job_Add double));
        ("B", async_deferred (job_Add bump))];
     Keyed.executed := [("A", async_deferred (job_Add double))];
     Keyed.terminated := None |}.

(** One worker holds a job of key ["B"]; two jobs of key ["A"] and one of
    key ["B"] are queued. *)
Definition cancel_target : @Keyed.state string _ _ nat string :=
  {| Keyed.job_list :=
       [("A", async_deferred (job_Add bump));
        ("B", async_deferred (job_Add bump));
        ("A", async_deferred (job_Add double))];
     Keyed.pending_job_count_map := {[ "A" := 2%N; "B" := 1%N ]};
     Keyed.in_progress_job_count_map := {[ "B" := 1%N ]};
     Keyed.thread_pool :=
       [Keyed.JThread false (Keyed.Running "B" (async_deferred (job_Add bump)))];
     Keyed.join_callers := [];
     Keyed.world := 0;
     Keyed.dispatched := [("B", async_deferred (job_Add bump))];
     Keyed.executed := [];
     Keyed.terminated := None |}.

(** Two workers, three submissions: worker 0 still holds the first job
    while worker 1 has run the second and has taken the third. *)
Definition two_workers_busy : @Keyed.state string _ _ nat string :=
  {| Keyed.job_list := [];
     Keyed.pending_job_count_map := ∅;
     Keyed.in_progress_job_count_map := {[ "A" := 2%N ]};
     Keyed.thread_pool :=
       [Keyed.JThread false (Keyed.Running "A" (async_deferred (job_Add double)));
        Keyed.JThread false (Keyed.Running "A" (async_deferred (job_Add bump)))];
     Keyed.join_callers := [];
     Keyed.world := 1;
     Keyed.dispatched :=
       [("A", async_deferred (job_Add double));
        ("B", async_deferred (job_Add bump));
        ("A", async_deferred (job_Add bump))];
     Keyed.executed := [("B", async_deferred (job_Add bump))];
     Keyed.terminated := None |}.

(** Two workers of a pool that is being destroyed: worker 0 was asleep and
    has been notified; worker 1 had tested its predicate when the
    destructor made its calls, and blocked after them. *)
Definition destructor_missed : @Keyed.state string _ _ nat string :=
  {| Keyed.job_list := [];
     Keyed.pending_job_count_map := ∅;
     Keyed.in_progress_job_count_map := ∅;
     Keyed.thread_pool :=
       [Keyed.JThread true (Keyed.Waiting true);
        Keyed.JThread true (Keyed.Waiting false)];
     Keyed.join_callers := [];
     Keyed.world := 0;
     Keyed.dispatched := [];
     Keyed.executed := [];
     Keyed.terminated := None |}.

(** ... and worker 0 has left its loop. *)
Definition destructor_hung : @Keyed.state string _ _ nat string :=
  {| Keyed.job_list := [];
     Keyed.pending_job_count_map := ∅;
     Keyed.in_progress_job_count_map := ∅;
     Keyed.thread_pool :=
       [Keyed.JThread true Keyed.Exited;
        Keyed.JThread true (Keyed.Waiting false)];
     Keyed.join_callers := [];
     Keyed.world := 0;
     Keyed.dispatched := [];
     Keyed.executed := [];
     Keyed.terminated := None |}.

(** The no-key pool with two workers and three submissions: worker 0
    holds the first job, worker 1 has taken and run the second, the third is
    queued. *)
Definition nokey_two_taken : @NoKey.state nat string :=
  {| NoKey.job_queue := [async_deferred (job_Add bump)];
     NoKey.thread_pool :=
       [NoKey.JThread false (NoKey.Running (async_deferred (job_Add double)));
        NoKey.JThread false NoKey.LoopTop];
     NoKey.number_of_busy_threads := 2;
     NoKey.join_callers := [];
     NoKey.world := 1;
     NoKey.dispatched :=
       [async_deferred (job_Add double); async_deferred (job_Add bump)];
     NoKey.executed := [async_deferred (job_Add bump)];
     NoKey.terminated := None |}.


End Examples.

(** * Facts about the counters and the containers *)

Lemma size_incr_small (n : N) : (n < SIZE_MAX)%N → size_incr n = (n + 1)%N.
Proof.
  intros Hn. unfold size_incr. apply N.mod_small. lia.
Qed.

Lemma size_decr_positive (n : N) :
  (0 < n)%N → (n ≤ SIZE_MAX)%N → size_decr n = (n - 1)%N.
Proof.
  intros Hpos Hmax. unfold size_decr.
  replace (n + SIZE_MAX)%N with ((n - 1) + 1 * (SIZE_MAX + 1))%N by lia.
  rewrite N.Div0.mod_add. apply N.mod_small. lia.
Qed.

Lemma emplace_back_Some {A : Type} (x : A) (l l' : list A) :
  emplace_back x l = Some l' →
  l' = l ++ [x] ∧ (N.of_nat (length l') ≤ SIZE_MAX)%N.
Proof.
  unfold emplace_back. case_decide; [|done].
  intros [= <-]. split; [done|]. rewrite length_app. simpl. lia.
Qed.

Lemma std_empty_true {A : Type} (l : list A) : std_empty l = true ↔ l = [].
Proof. destruct l; simpl; split; congruence. Qed.

(** * The keyed queue: accounting *)

Section KeyedAccounting.
Import Keyed.
Context `{Countable K} {W E : Type}.
Local Abbreviation state := (@Keyed.state K _ _ W E).
Local Abbreviation label := (@Keyed.label K W E).
Local Abbreviation jthread := (@Keyed.jthread K W E).
Implicit Types (s : state) (l : label) (tp : list jthread) (t : jthread)
  (m : gmap K N) (k key : K) (jl : list (K * future W E)).

Lemma sparse_at_key m k c : m !! k = sparse c → at_key m k = N.of_nat c.
Proof. unfold at_key. intros ->. by destruct c. Qed.

Lemma sparse_contains m k c :
  m !! k = sparse c → contains m k = true ↔ 0 < c.
Proof.
  unfold contains. intros ->. destruct c; simpl; split; (lia || congruence).
Qed.

Lemma key_jobs_app k jl1 jl2 :
  key_jobs k (jl1 ++ jl2) = key_jobs k jl1 + key_jobs k jl2.
Proof. apply sum_list_with_app. Qed.

Lemma key_jobs_cons k key (job : future W E) jl :
  key_jobs k ((key, job) :: jl)
  = if decide (k = key) then S (key_jobs k jl) else key_jobs k jl.
Proof.
  unfold key_jobs. simpl.
  destruct (decide (key = k)), (decide (k = key)); simpl; congruence.
Qed.

Lemma key_jobs_snoc k key (job : future W E) jl :
  key_jobs k (jl ++ [(key, job)])
  = if decide (k = key) then S (key_jobs k jl) else key_jobs k jl.
Proof.
  rewrite key_jobs_app, key_jobs_cons.
  change (key_jobs k []) with 0.
  destruct (decide (k = key)); lia.
Qed.

Lemma key_jobs_le k jl : key_jobs k jl ≤ length jl.
Proof.
  induction jl as [|e jl IH]; simpl; [lia|].
  unfold key_jobs in *. simpl. case_decide; lia.
Qed.

Lemma key_jobs_filter k (ts : list K) jl :
  key_jobs k (filter (λ e, e.1 ∉ ts) jl)
  = if decide (k ∈ ts) then 0 else key_jobs k jl.
Proof.
  induction jl as [|e jl IH].
  { by case_decide. }
  rewrite filter_cons. unfold key_jobs in *.
  destruct (decide (e.1 ∉ ts)) as [Hout|Hin]; simpl; rewrite IH.
  - destruct (decide (e.1 = k)) as [<-|Hne]; [|done].
    by destruct (decide (e.1 ∈ ts)).
  - destruct (decide (e.1 = k)) as [<-|Hne]; [|done].
    by destruct (decide (e.1 ∈ ts)).
Qed.

Lemma lookup_erase_keys (ts : list K) m k :
  erase_keys ts m !! k = if decide (k ∈ ts) then None else m !! k.
Proof.
  unfold erase_keys. revert m.
  induction ts as [|t ts IH]; intros m; simpl.
  { destruct (decide (k ∈ [])) as [Hin|]; [|done].
    by apply elem_of_nil in Hin. }
  rewrite IH. destruct (decide (k = t)) as [->|Hne].
  - rewrite lookup_delete_eq.
    rewrite (decide_True (P := t ∈ t :: ts)) by apply list_elem_of_here.
    by destruct (decide (t ∈ ts)).
  - rewrite lookup_delete_ne by done.
    destruct (decide (k ∈ ts)) as [Hin|Hout].
    + rewrite decide_True; [done|]. apply elem_of_cons. by right.
    + rewrite decide_False; [done|]. apply not_elem_of_cons. by split.
Qed.

Lemma key_workers_le k tp : key_workers k tp ≤ length tp.
Proof.
  induction tp as [|t tp IH]; simpl; [done|].
  unfold key_workers in *. simpl.
  assert (holding k t ≤ 1); [|lia].
  unfold holding. destruct (at_point t); try case_decide; lia.
Qed.

(** Replacing thread [i]: its old share leaves the count, its new one
    enters. *)
Lemma key_workers_insert k tp i t t' :
  tp !! i = Some t →
  key_workers k (<[i := t']> tp) + holding k t
  = key_workers k tp + holding k t'.
Proof.
  intros Hi. unfold key_workers.
  rewrite insert_take_drop by (by eapply lookup_lt_Some).
  rewrite <- (take_drop_middle tp i t Hi) at 3.
  rewrite !sum_list_with_app. simpl. lia.
Qed.

Lemma key_workers_insert_lt k tp i t :
  tp !! i = Some t → holding k t = 0 → key_workers k tp < length tp.
Proof.
  intros Hi Ht. unfold key_workers.
  rewrite <- (take_drop_middle tp i t Hi).
  rewrite !sum_list_with_app, length_app. simpl. rewrite Ht.
  pose proof (key_workers_le k (take i tp)).
  pose proof (key_workers_le k (drop (S i) tp)).
  unfold key_workers in *. lia.
Qed.

Lemma key_workers_fmap k (f : jthread → jthread) tp :
  (∀ t, holding k (f t) = holding k t) →
  key_workers k (f <$> tp) = key_workers k tp.
Proof.
  intros Hf. unfold key_workers.
  induction tp as [|t tp IH]; csimpl; [done|]. by rewrite Hf, IH.
Qed.

Lemma holding_wake_worker k t : holding k (wake_worker t) = holding k t.
Proof.
  unfold wake_worker, holding.
  destruct (at_point t) eqn:Ht; simpl; by rewrite ?Ht.
Qed.

Lemma key_workers_same k tp i t t' :
  tp !! i = Some t → holding k t' = holding k t →
  key_workers k (<[i := t']> tp) = key_workers k tp.
Proof.
  intros Hi Heq. pose proof (key_workers_insert k tp i t t' Hi). lia.
Qed.

Lemma key_workers_notify_one k wake tp tp' :
  notify_one wake tp = Some tp' →
  key_workers k tp' = key_workers k tp ∧ length tp' = length tp.
Proof.
  unfold notify_one. intros Hn.
  destruct (tp !! wake) as [t|] eqn:Hw.
  - destruct (blocked t).
    + injection Hn as <-. split; [|by rewrite length_insert].
      eapply key_workers_same; [done|]. apply holding_wake_worker.
    + destruct (existsb blocked tp); [done|]. by injection Hn as <-.
  - destruct (existsb blocked tp); [done|]. by injection Hn as <-.
Qed.

Lemma length_set_control i c tp : length (set_control i c tp) = length tp.
Proof.
  unfold set_control. destruct (tp !! i); [|done]. by rewrite length_insert.
Qed.

Lemma key_workers_set_control k tp i t c :
  tp !! i = Some t →
  key_workers k (set_control i c tp) + holding k t
  = key_workers k tp + holding k (JThread (stop_requested t) c).
Proof.
  intros Hi. unfold set_control. rewrite Hi. by apply key_workers_insert.
Qed.

(** [++m[k]] and [--m[k]] with the erase at zero, on a map that stores
    the count [c] sparsely. *)
Lemma sparse_incr m k c k' :
  m !! k = sparse c → (N.of_nat c < SIZE_MAX)%N →
  <[k := size_incr (at_key m k)]> m !! k'
  = if decide (k' = k) then sparse (S c) else m !! k'.
Proof.
  intros Hm Hc. rewrite (sparse_at_key _ _ _ Hm).
  rewrite size_incr_small by done.
  destruct (decide (k' = k)) as [->|Hne].
  - rewrite lookup_insert_eq. simpl. f_equal. lia.
  - by rewrite lookup_insert_ne.
Qed.

Lemma sparse_decr m k c k' :
  m !! k = sparse (S c) → (N.of_nat (S c) ≤ SIZE_MAX)%N →
  (if decide (size_decr (at_key m k) = 0%N) then delete k m
   else <[k := size_decr (at_key m k)]> m) !! k'
  = if decide (k' = k) then sparse c else m !! k'.
Proof.
  intros Hm Hc. rewrite (sparse_at_key _ _ _ Hm).
  rewrite size_decr_positive by lia.
  replace (N.of_nat (S c) - 1)%N with (N.of_nat c) by lia.
  destruct (decide (N.of_nat c = 0%N)) as [Hz|Hnz].
  - assert (c = 0) as -> by lia.
    destruct (decide (k' = k)) as [->|Hne].
    + by rewrite lookup_delete_eq.
    + by rewrite lookup_delete_ne.
  - destruct (decide (k' = k)) as [->|Hne].
    + rewrite lookup_insert_eq. destruct c; [done|done].
    + by rewrite lookup_insert_ne.
Qed.

Lemma accounted_AsyncJobQueue (n : N) (w : W) :
  (n ≤ SIZE_MAX)%N → accounted (AsyncJobQueue (K:=K) (E:=E) n w).
Proof.
  intros Hn. split; simpl.
  - intros k. by rewrite lookup_empty.
  - intros k. rewrite lookup_empty.
    assert (key_workers k
              (replicate (N.to_nat n) (JThread (K:=K) (W:=W) (E:=E) false LoopTop))
            = 0) as ->; [|done].
    induction (N.to_nat n) as [|x IH]; [done|]. simpl. apply IH.
  - unfold SIZE_MAX. lia.
  - rewrite length_replicate. lia.
Qed.

(** A step that leaves the job store and both maps alone, and no worker's
    job. *)
Lemma accounted_frame s s' :
  accounted s →
  job_list s' = job_list s →
  pending_job_count_map s' = pending_job_count_map s →
  in_progress_job_count_map s' = in_progress_job_count_map s →
  (∀ k, key_workers k (thread_pool s') = key_workers k (thread_pool s)) →
  length (thread_pool s') = length (thread_pool s) →
  accounted s'.
Proof.
  intros [Hp Hi Hj Ht] Ejl Ep Ei Ekw Elen.
  split; intros; rewrite ?Ejl, ?Ep, ?Ei, ?Ekw, ?Elen; auto.
Qed.

Lemma accounted_submit key (job : future W E) wake s s' :
  accounted s → submit key job wake s = Some s' → accounted s'.
Proof.
  intros [Hp Hi Hj Ht]. unfold submit.
  destruct (emplace_back (key, job) (job_list s)) as [jl'|] eqn:Hjl; [|done].
  destruct (notify_one wake (thread_pool s)) as [tp'|] eqn:Htp; [|done].
  simpl. intros [= <-].
  apply emplace_back_Some in Hjl as [-> Hlen].
  split; simpl.
  - intros k. rewrite (sparse_incr _ _ (key_jobs key (job_list s))).
    + rewrite key_jobs_snoc.
      destruct (decide (k = key)) as [->|Hne]; [done|apply Hp].
    + apply Hp.
    + pose proof (key_jobs_le key (job_list s)).
      rewrite length_app in Hlen. simpl in Hlen. lia.
  - intros k. destruct (key_workers_notify_one k _ _ _ Htp) as [-> _].
    apply Hi.
  - done.
  - destruct (key_workers_notify_one key _ _ _ Htp) as [_ ->]. done.
Qed.

Lemma accounted_Cancel (ts : list K) s : accounted s → accounted (Cancel ts s).
Proof.
  intros [Hp Hi Hj Ht]. destruct ts as [|t ts].
  - split; simpl; try done; intros k; by rewrite lookup_empty.
  - split;
      cbn [Cancel job_list pending_job_count_map in_progress_job_count_map
           thread_pool]; try done.
    + intros k. rewrite lookup_erase_keys, key_jobs_filter.
      destruct (decide (k ∈ t :: ts)); [done|apply Hp].
    + pose proof (length_filter (λ e : K * future W E, e.1 ∉ t :: ts)
                    (job_list s)). lia.
Qed.

Lemma accounted_destroy s : accounted s → accounted (destroy s).
Proof.
  intros Hs. apply (accounted_frame s); try done; simpl.
  - intros k. unfold notify_all_job.
    rewrite key_workers_fmap by apply holding_wake_worker.
    by apply key_workers_fmap.
  - unfold notify_all_job. by rewrite !length_fmap.
Qed.

Lemma accounted_loop_head i t s :
  accounted s → thread_pool s !! i = Some t → at_point t = LoopTop →
  accounted (loop_head i t s).
Proof.
  intros Hs Hi Hat. pose proof Hs as [Hp Hip Hj Ht].
  assert (∀ k, holding k t = 0) as Hfree.
  { intros k. unfold holding. by rewrite Hat. }
  unfold loop_head. destruct (job_list s) as [|[key job] rest] eqn:Hjl.
  - apply (accounted_frame s); try done; simpl.
    + intros k.
      pose proof (key_workers_set_control k _ i t (wait_for_job t s) Hi) as Hkw.
      rewrite Hfree in Hkw.
      assert (holding k (JThread (stop_requested t) (wait_for_job t s)) = 0)
        as Hnew.
      { unfold holding, wait_for_job. simpl.
        by repeat match goal with |- context [if ?b then _ else _] =>
                    destruct b end. }
      lia.
    + apply length_set_control.
  - assert (N.of_nat (S (key_jobs key rest)) ≤ SIZE_MAX)%N as Hkj.
    { pose proof (key_jobs_le key rest). simpl in Hj. lia. }
    assert (pending_job_count_map s !! key = sparse (S (key_jobs key rest)))
      as Hpk.
    { rewrite Hp, key_jobs_cons. by rewrite decide_True. }
    split; simpl.
    + intros k. unfold take_pending. simpl.
      rewrite (sparse_decr _ _ _ _ Hpk Hkj).
      destruct (decide (k = key)) as [->|Hne]; [done|].
      rewrite Hp, key_jobs_cons. by rewrite decide_False.
    + intros k.
      pose proof (key_workers_set_control k _ i t (Running key job) Hi) as Hkw.
      rewrite Hfree in Hkw. unfold holding in Hkw at 1. simpl in Hkw.
      rewrite (sparse_incr _ _ (key_workers key (thread_pool s))).
      * destruct (decide (k = key)) as [->|Hne].
        -- rewrite decide_True in Hkw by done. f_equal. lia.
        -- rewrite decide_False in Hkw by done. rewrite Hip. f_equal. lia.
      * apply Hip.
      * pose proof (key_workers_insert_lt key _ i t Hi (Hfree key)). lia.
    + simpl in Hj. lia.
    + by rewrite length_set_control.
Qed.

Lemma accounted_wait_resume i t s :
  accounted s → thread_pool s !! i = Some t → at_point t = Waiting true →
  accounted (wait_resume i t s).
Proof.
  intros Hs Hi Hat. apply (accounted_frame s); try done; simpl.
  - intros k.
    pose proof (key_workers_set_control k _ i t (wait_for_job t s) Hi) as Hkw.
    assert (holding k t = 0) as Hold by (unfold holding; by rewrite Hat).
    assert (holding k (JThread (stop_requested t) (wait_for_job t s)) = 0)
      as Hnew.
    { unfold holding, wait_for_job. simpl.
      by repeat match goal with |- context [if ?b then _ else _] =>
                  destruct b end. }
    lia.
  - apply length_set_control.
Qed.

Lemma accounted_run_job i t key (job : future W E) s :
  accounted s → thread_pool s !! i = Some t → at_point t = Running key job →
  accounted (run_job i key job s).
Proof.
  intros Hs Hi Hat. unfold run_job.
  destruct (get job (world s)) as [[[]|e] w'].
  - apply (accounted_frame s); try done; simpl.
    + intros k.
      pose proof (key_workers_set_control k _ i t (Finishing key) Hi) as Hkw.
      unfold holding in Hkw. simpl in Hkw. rewrite Hat in Hkw. lia.
    + apply length_set_control.
  - by apply (accounted_frame s).
Qed.

Lemma accounted_finish_job i t key s :
  accounted s → thread_pool s !! i = Some t → at_point t = Finishing key →
  accounted (finish_job i key s).
Proof.
  intros Hs Hi Hat. pose proof Hs as [Hp Hip Hj Ht].
  assert (∀ k, key_workers k (set_control i LoopTop (thread_pool s))
               + (if decide (key = k) then 1 else 0)
               = key_workers k (thread_pool s)) as Hkw.
  { intros k.
    pose proof (key_workers_set_control k _ i t LoopTop Hi) as Hkw.
    unfold holding in Hkw. simpl in Hkw. rewrite Hat in Hkw. lia. }
  pose proof (Hkw key) as Hkey. rewrite decide_True in Hkey by done.
  assert (in_progress_job_count_map s !! key
          = sparse (S (key_workers key (set_control i LoopTop (thread_pool s)))))
    as Hipk.
  { rewrite Hip. f_equal. lia. }
  assert (N.of_nat (S (key_workers key (set_control i LoopTop (thread_pool s))))
          ≤ SIZE_MAX)%N as Hbound.
  { pose proof (key_workers_le key (thread_pool s)). lia. }
  split; simpl; try done.
  - intros k. rewrite (sparse_decr _ _ _ _ Hipk Hbound).
    destruct (decide (k = key)) as [->|Hne]; [done|].
    rewrite Hip. f_equal. specialize (Hkw k).
    rewrite decide_False in Hkw by done. lia.
  - by rewrite length_set_control.
Qed.

Lemma accounted_JobDispatcherThread i s s' :
  accounted s → JobDispatcherThread i s = Some s' → accounted s'.
Proof.
  intros Hs. unfold JobDispatcherThread.
  destruct (thread_pool s !! i) as [t|] eqn:Hi; [simpl|done].
  destruct (at_point t) as [|[]|key job|key|] eqn:Hat; intros [= <-].
  - by apply accounted_loop_head.
  - by apply accounted_wait_resume.
  - by eapply accounted_run_job.
  - by eapply accounted_finish_job.
Qed.

Lemma lookup_set_control i c (tp : list (@Keyed.jthread K W E)) t :
  tp !! i = Some t →
  set_control i c tp !! i = Some (JThread (stop_requested t) c).
Proof.
  intros Hi. unfold set_control. rewrite Hi.
  apply list_lookup_insert_eq. by eapply lookup_lt_Some.
Qed.

(** The calls of the destructor, one by one. *)
Lemma request_stop_Some i s s' :
  request_stop i s = Some s' →
  ∃ t, thread_pool s !! i = Some t
       ∧ s' = set_thread_pool
                (<[i := JThread true (at_point t)]> (thread_pool s)) s.
Proof.
  unfold request_stop.
  destruct (thread_pool s !! i) as [t|]; [simpl|done].
  destruct (forallb _ _); [|done]. intros [= <-]. by exists t.
Qed.

Lemma destructor_notify_Some s s' :
  destructor_notify s = Some s' →
  s' = set_thread_pool (notify_all_job (thread_pool s)) s.
Proof.
  unfold destructor_notify. destruct (forallb _ _); [|done].
  by intros [= <-].
Qed.

(** The raced wait is the worker's step into the wait, followed by the
    destructor, except that the worker is not woken. *)
Lemma wait_raced_Some i s s' :
  wait_raced i s = Some s' →
  ∃ s1, JobDispatcherThread i s = Some s1
        ∧ s' = miss_worker i (destroy s1)
        ∧ job_list s = []
        ∧ job_list s1 = []
        ∧ dispatched s1 = dispatched s
        ∧ thread_pool (destroy s1) !! i = Some (JThread true (Waiting true)).
Proof.
  unfold wait_raced, JobDispatcherThread.
  destruct (thread_pool s !! i) as [t|] eqn:Hi; [simpl|done].
  destruct (wait_for_job t s) as [|[]| | |] eqn:Hwait; try done.
  assert (job_list s = []) as Hjl.
  { unfold wait_for_job in Hwait.
    destruct (stop_requested t), (job_list s); simpl in Hwait; done. }
  assert (∀ s1, thread_pool s1 = set_control i (Waiting false) (thread_pool s) →
                thread_pool (destroy s1) !! i
                = Some (JThread true (Waiting true))) as Hlook.
  { intros s1 Htp. simpl. unfold notify_all_job.
    rewrite <- list_fmap_compose, list_lookup_fmap, Htp.
    by rewrite (lookup_set_control _ _ _ t Hi). }
  destruct (at_point t) as [|[]|key job|key|]; try done; intros [= <-].
  - exists (loop_head i t s). split; [done|]. split; [done|].
    split; [done|].
    assert (job_list (loop_head i t s) = []
            ∧ dispatched (loop_head i t s) = dispatched s
            ∧ thread_pool (loop_head i t s)
              = set_control i (Waiting false) (thread_pool s))
      as (Hq & Hd & Htp).
    { unfold loop_head. rewrite Hjl. simpl. by rewrite Hwait. }
    split; [done|]. split; [done|]. by apply Hlook.
  - exists (wait_resume i t s). split; [done|]. split; [done|].
    split; [done|]. split; [done|]. split; [done|].
    apply Hlook. simpl. by rewrite Hwait.
Qed.

Lemma accounted_miss_worker i t s :
  accounted s → thread_pool s !! i = Some t → (∀ k, holding k t = 0) →
  accounted (miss_worker i s).
Proof.
  intros Hs Hi Hfree. apply (accounted_frame s); try done; simpl.
  - intros k.
    pose proof (key_workers_set_control k _ i t (Waiting false) Hi) as Hkw.
    rewrite Hfree in Hkw. unfold holding in Hkw at 1. simpl in Hkw. lia.
  - apply length_set_control.
Qed.

Lemma accounted_request_stop i s s' :
  accounted s → request_stop i s = Some s' → accounted s'.
Proof.
  intros Hs (t & Hi & ->)%request_stop_Some.
  apply (accounted_frame s); try done; simpl.
  - intros k. by apply (key_workers_same k _ i t).
  - by rewrite length_insert.
Qed.

Lemma accounted_destructor_notify s s' :
  accounted s → destructor_notify s = Some s' → accounted s'.
Proof.
  intros Hs ->%destructor_notify_Some.
  apply (accounted_frame s); try done; simpl.
  - intros k. unfold notify_all_job.
    by rewrite key_workers_fmap by apply holding_wake_worker.
  - unfold notify_all_job. by rewrite length_fmap.
Qed.

Lemma accounted_wait_raced i s s' :
  accounted s → wait_raced i s = Some s' → accounted s'.
Proof.
  intros Hs (s1 & Hstep & -> & _ & _ & _ & Hi)%wait_raced_Some.
  apply (accounted_miss_worker i (JThread true (Waiting true)));
    [|done|done].
  apply accounted_destroy. by apply (accounted_JobDispatcherThread i s).
Qed.

Lemma accounted_step l s s' : accounted s → step l s = Some s' → accounted s'.
Proof.
  intros Hs. unfold step. destruct (terminated s); [done|].
  destruct l as [key func wake|key cb func wake|R key cb func wake|ts|ts|
                 |i|j|i|j|i| |i];
    [..|by apply accounted_request_stop|by apply accounted_destructor_notify
     |by apply accounted_wait_raced].
  - apply accounted_submit, Hs.
  - apply accounted_submit, Hs.
  - apply accounted_submit, Hs.
  - intros [= <-]. by apply (accounted_frame s).
  - intros [= <-]. by apply accounted_Cancel.
  - intros [= <-]. by apply accounted_destroy.
  - by apply accounted_JobDispatcherThread.
  - unfold Join_resume.
    destruct (join_callers s !! j) as [[ts [[]|]]|]; try done.
    intros [= <-]. by apply (accounted_frame s).
  - unfold spurious_worker.
    destruct (thread_pool s !! i) as [t|] eqn:Hi; [simpl|done].
    destruct (blocked t); [|done]. intros [= <-].
    apply (accounted_frame s); try done; simpl.
    + intros k. eapply key_workers_same; [done|apply holding_wake_worker].
    + by rewrite length_insert.
  - unfold spurious_joiner.
    destruct (join_callers s !! j) as [c|]; [simpl|done].
    destruct (join_at c) as [[]|]; try done.
    intros [= <-]. by apply (accounted_frame s).
Qed.

(** A property that holds after construction and that every step keeps
    holds in every reachable state. *)
Lemma run_preserves (P : state → Prop) ls :
  (∀ l s s', P s → step l s = Some s' → P s') →
  ∀ s s', P s → run ls s = Some s' → P s'.
Proof.
  intros Hstep. induction ls as [|l ls IH]; intros s s' Hs; simpl.
  - by intros [= <-].
  - destruct (step l s) as [s1|] eqn:Hl; [simpl|done].
    apply IH. by eapply Hstep.
Qed.

(** The entry of the in-progress-count map that a worker refers to between
    taking a job and accounting for its end is in the map all that time. *)
Lemma taken_key_has_entry s i t key :
  accounted s → thread_pool s !! i = Some t → holding key t = 1 →
  contains (in_progress_job_count_map s) key = true.
Proof.
  intros [_ Hip _ _] Hi Hone.
  apply (sparse_contains _ _ _ (Hip key)).
  pose proof (sum_list_with_in t (holding key) (thread_pool s)) as Hsum.
  rewrite Hone in Hsum. unfold key_workers.
  apply Hsum. by eapply list_elem_of_lookup_2.
Qed.

Lemma reachable_accounted s : reachable s → accounted s.
Proof.
  intros (n & w & ls & Hn & Hrun).
  eapply (run_preserves accounted); [apply accounted_step| |apply Hrun].
  by apply accounted_AsyncJobQueue.
Qed.
End KeyedAccounting.

(** * The keyed queue: the claims *)

Section KeyedClaims.
Import Keyed.
Context `{Countable K} {W E : Type}.
Local Abbreviation state := (@Keyed.state K _ _ W E).
Local Abbreviation label := (@Keyed.label K W E).
Implicit Types (s : state) (l : label) (k key : K) (ts : list K).

(** What [Ready] computes: with no key at all, only the job store is
    looked at. *)
Lemma Ready_no_key s : Ready [] s = true ↔ job_list s = [].
Proof.
  unfold Ready. simpl. rewrite !andb_true_r. apply std_empty_true.
Qed.

Lemma Ready_keys ts s :
  Ready ts s = true ↔
  job_list s = []
  ∧ ∀ t, t ∈ ts →
      pending_job_count_map s !! t = None
      ∧ in_progress_job_count_map s !! t = None.
Proof.
  unfold Ready. rewrite !andb_true_iff, std_empty_true, !forallb_forall.
  unfold contains. split.
  - intros [[Hjl Hp] Hip]. split; [done|]. intros t Ht.
    apply list_elem_of_In in Ht.
    specialize (Hp t Ht). specialize (Hip t Ht).
    destruct (pending_job_count_map s !! t),
      (in_progress_job_count_map s !! t); done.
  - intros [Hjl Hall]. split; [split; [done|]|]; intros t Ht;
      apply list_elem_of_In in Ht; destruct (Hall t Ht) as [Hp Hip];
      by rewrite ?Hp, ?Hip.
Qed.

(** C6 — Sparse maps.  In every reachable state a key has an entry in
    the pending-count map exactly when its pending count is positive, and
    an entry in the in-progress-count map exactly when its in-progress
    count is positive; a missing entry reads as zero.  The stored counts
    are the true ones: the number of queued entries with that key and the
    number of workers that have taken a job of that key and have not yet
    accounted for its end. *)
Theorem sparse_map_invariant s k :
  reachable s →
  (contains (pending_job_count_map s) k = true
   ↔ (0 < at_key (pending_job_count_map s) k)%N)
  ∧ at_key (pending_job_count_map s) k = N.of_nat (key_jobs k (job_list s))
  ∧ (contains (in_progress_job_count_map s) k = true
     ↔ (0 < at_key (in_progress_job_count_map s) k)%N)
  ∧ at_key (in_progress_job_count_map s) k
    = N.of_nat (key_workers k (thread_pool s)).
Proof.
  intros Hs. destruct (reachable_accounted s Hs) as [Hp Hip _ _].
  specialize (Hp k). specialize (Hip k).
  rewrite (sparse_at_key _ _ _ Hp), (sparse_at_key _ _ _ Hip).
  rewrite (sparse_contains _ _ _ Hp), (sparse_contains _ _ _ Hip).
  repeat split; lia.
Qed.

(** C7 — Selective cancel.  For at least one key, [Cancel(ts...)] keeps,
    in order, exactly the entries of the job store whose key is none of
    [ts], erases exactly the entries of [ts] from the pending-count map,
    and leaves the in-progress-count map as it was. *)
Theorem Cancel_selective ts s :
  ts ≠ [] →
  job_list (Cancel ts s) = filter (λ e, e.1 ∉ ts) (job_list s)
  ∧ (∀ k, pending_job_count_map (Cancel ts s) !! k
          = if decide (k ∈ ts) then None else pending_job_count_map s !! k)
  ∧ in_progress_job_count_map (Cancel ts s) = in_progress_job_count_map s.
Proof.
  intros Hts. destruct ts as [|t ts]; [done|].
  split; [done|]. split; [|done].
  intros k. cbn [Cancel pending_job_count_map]. apply lookup_erase_keys.
Qed.

(** Every step other than [Cancel] either appends the submitted entry to
    the job store, or moves its head to the end of the history, or leaves
    both alone. *)
Lemma submit_order key (job : future W E) wake s s' :
  submit key job wake s = Some s' →
  dispatched s' = dispatched s ∧ job_list s' = job_list s ++ [(key, job)].
Proof.
  unfold submit.
  destruct (emplace_back (key, job) (job_list s)) as [jl'|] eqn:Hjl; [|done].
  destruct (notify_one wake (thread_pool s)) as [tp'|]; [|done].
  simpl. intros [= <-]. by apply emplace_back_Some in Hjl as [-> _].
Qed.

Lemma JobDispatcherThread_order i s s' :
  JobDispatcherThread i s = Some s' →
  dispatched s' ++ job_list s' = dispatched s ++ job_list s.
Proof.
  unfold JobDispatcherThread.
  destruct (thread_pool s !! i) as [t|]; [simpl|done].
  destruct (at_point t) as [|[]|key job|key|]; intros [= <-]; try done.
  - unfold loop_head. destruct (job_list s) as [|[key job] rest]; simpl.
    + done.
    + by rewrite <- app_assoc.
  - unfold run_job. by destruct (get job (world s)) as [[[]|e] w'].
Qed.

Lemma step_order l s s' :
  step l s = Some s' → is_cancel l = false →
  dispatched s' ++ job_list s'
  = (dispatched s ++ job_list s) ++ option_list (submission l).
Proof.
  unfold step. destruct (terminated s); [done|].
  destruct l as [key func wake|key cb func wake|R key cb func wake|ts|ts|
                 |i|j|i|j|i| |i]; simpl; intros Hstep Hl; try done;
    rewrite ?app_nil_r.
  - apply submit_order in Hstep as [-> ->]. by rewrite app_assoc.
  - apply submit_order in Hstep as [-> ->]. by rewrite app_assoc.
  - apply submit_order in Hstep as [-> ->]. by rewrite app_assoc.
  - by injection Hstep as <-.
  - by injection Hstep as <-.
  - by apply (JobDispatcherThread_order i).
  - unfold Join_resume in Hstep.
    destruct (join_callers s !! j) as [[ts [[]|]]|]; try done.
    by injection Hstep as <-.
  - unfold spurious_worker in Hstep.
    destruct (thread_pool s !! i) as [t|]; [simpl in Hstep|done].
    destruct (blocked t); [|done]. by injection Hstep as <-.
  - unfold spurious_joiner in Hstep.
    destruct (join_callers s !! j) as [c|]; [simpl in Hstep|done].
    destruct (join_at c) as [[]|]; try done. by injection Hstep as <-.
  - by apply request_stop_Some in Hstep as (t & _ & ->).
  - by apply destructor_notify_Some in Hstep as ->.
  - apply wait_raced_Some in Hstep as (s1 & Hstep & -> & _).
    exact (JobDispatcherThread_order i s s1 Hstep).
Qed.

Lemma run_order ls s s' :
  run ls s = Some s' → forallb (λ l, negb (is_cancel l)) ls = true →
  dispatched s' ++ job_list s' = (dispatched s ++ job_list s) ++ submissions ls.
Proof.
  revert s. induction ls as [|l ls IH]; intros s; simpl.
  - intros [= <-] _. by rewrite app_nil_r.
  - destruct (step l s) as [s1|] eqn:Hl; [simpl|done].
    intros Hrun [Hc Hcs]%andb_true_iff. apply negb_true_iff in Hc.
    rewrite (IH s1 Hrun Hcs), (step_order l s s1 Hl Hc).
    rewrite <- !app_assoc. f_equal. f_equal.
    unfold submissions. simpl. by destruct (submission l).
Qed.

(** With at most one worker, a job is run as soon as it has been taken:
    the jobs run, followed by the one taken and not yet run, are the jobs
    taken. *)
Lemma in_flight_insert_same (tp : list (@Keyed.jthread K W E)) i t t' :
  tp !! i = Some t → running t' = running t →
  in_flight (<[i := t']> tp) = in_flight tp.
Proof.
  unfold in_flight. revert i.
  induction tp as [|x tp IH]; intros [|i] Hi Hrun; try done; csimpl in *.
  - injection Hi as ->. by rewrite Hrun.
  - by rewrite (IH i Hi Hrun).
Qed.

Lemma in_flight_fmap (f : @Keyed.jthread K W E → @Keyed.jthread K W E) tp :
  (∀ t, running (f t) = running t) → in_flight (f <$> tp) = in_flight tp.
Proof.
  intros Hf. unfold in_flight.
  induction tp as [|x tp IH]; csimpl; [done|]. by rewrite Hf, IH.
Qed.

Lemma running_wake_worker (t : @Keyed.jthread K W E) :
  running (wake_worker t) = running t.
Proof.
  unfold wake_worker, running.
  destruct (at_point t) eqn:Ht; simpl; by rewrite ?Ht.
Qed.

Lemma in_flight_notify_one wake (tp tp' : list (@Keyed.jthread K W E)) :
  notify_one wake tp = Some tp' →
  in_flight tp' = in_flight tp ∧ length tp' = length tp.
Proof.
  unfold notify_one. intros Hn.
  destruct (tp !! wake) as [t|] eqn:Hw.
  - destruct (blocked t).
    + injection Hn as <-. split; [|by rewrite length_insert].
      eapply in_flight_insert_same; [done|]. apply running_wake_worker.
    + destruct (existsb blocked tp); [done|]. by injection Hn as <-.
  - destruct (existsb blocked tp); [done|]. by injection Hn as <-.
Qed.

Lemma in_flight_set_control (tp : list (@Keyed.jthread K W E)) i c t :
  tp !! i = Some t →
  running (JThread (stop_requested t) c) = running t →
  in_flight (set_control i c tp) = in_flight tp.
Proof.
  intros Hi Hrun. unfold set_control. rewrite Hi.
  by apply (in_flight_insert_same _ i t).
Qed.

Lemma run_at_once_frame s s' :
  run_at_once s →
  length (thread_pool s') = length (thread_pool s) →
  in_flight (thread_pool s') = in_flight (thread_pool s) →
  executed s' = executed s → dispatched s' = dispatched s →
  terminated s' = terminated s →
  run_at_once s'.
Proof.
  intros [Hlen Hinv] Hl Hfl He Hd Ht. unfold run_at_once.
  rewrite Hl, Hfl, He, Hd, Ht. by split.
Qed.

Lemma run_at_once_submit key (job : future W E) wake s s' :
  run_at_once s → submit key job wake s = Some s' → run_at_once s'.
Proof.
  intros [Hlen Hinv]. unfold submit.
  destruct (emplace_back (key, job) (job_list s)); [simpl|done].
  destruct (notify_one wake (thread_pool s)) as [tp'|] eqn:Htp; [|done].
  simpl. intros [= <-].
  apply in_flight_notify_one in Htp as [Hfl Hl].
  split; simpl; [lia|]. by rewrite Hfl.
Qed.

Lemma run_at_once_JobDispatcherThread i s s' :
  run_at_once s → terminated s = None →
  JobDispatcherThread i s = Some s' → run_at_once s'.
Proof.
  intros [Hlen Hinv] Hterm. specialize (Hinv Hterm). revert Hinv.
  unfold JobDispatcherThread, run_at_once.
  destruct (thread_pool s) as [|t [|t' tp]] eqn:Htp; simpl in Hlen;
    [done| |lia].
  destruct i as [|i]; [simpl|done]. unfold in_flight, running. simpl.
  destruct (at_point t) as [|[]|key job|key|] eqn:Hat; intros Hinv [= <-].
  - unfold loop_head. rewrite Htp.
    destruct (job_list s) as [|[key job] rest]; simpl.
    + split; [done|]. intros _. unfold wait_for_job.
      by repeat match goal with |- context [if ?b then _ else _] =>
                  destruct b end.
    + split; [done|]. intros _. by rewrite <- Hinv, !app_nil_r.
  - simpl. rewrite Htp. simpl. split; [done|]. intros _. unfold wait_for_job.
    by repeat match goal with |- context [if ?b then _ else _] =>
                destruct b end.
  - unfold run_job. rewrite Htp.
    destruct (get job (world s)) as [[[]|e] w']; simpl.
    + split; [done|]. intros _. by rewrite app_nil_r.
    + done.
  - simpl. rewrite Htp. simpl. split; [done|]. by intros _.
Qed.

Lemma run_at_once_step l s s' :
  run_at_once s → step l s = Some s' → run_at_once s'.
Proof.
  intros Hs. unfold step. destruct (terminated s) eqn:Hterm; [done|].
  destruct l as [key func wake|key cb func wake|R key cb func wake|ts|ts|
                 |i|j|i|j|i| |i].
  - by apply run_at_once_submit.
  - by apply run_at_once_submit.
  - by apply run_at_once_submit.
  - by intros [= <-].
  - by intros [= <-].
  - intros [= <-]. destruct Hs as [Hlen Hinv]. split; simpl.
    + unfold notify_all_job. by rewrite !length_fmap.
    + unfold notify_all_job.
      rewrite in_flight_fmap by apply running_wake_worker.
      by rewrite in_flight_fmap.
  - by apply run_at_once_JobDispatcherThread.
  - unfold Join_resume.
    destruct (join_callers s !! j) as [[ts [[]|]]|]; try done.
    by intros [= <-].
  - unfold spurious_worker.
    destruct (thread_pool s !! i) as [t|] eqn:Hi; [simpl|done].
    destruct (blocked t); [|done]. intros [= <-].
    destruct Hs as [Hlen Hinv]. split; simpl.
    + by rewrite length_insert.
    + by rewrite (in_flight_insert_same _ i t _ Hi (running_wake_worker t)).
  - unfold spurious_joiner.
    destruct (join_callers s !! j) as [c|]; [simpl|done].
    destruct (join_at c) as [[]|]; try done. by intros [= <-].
  - intros (t & Hi & ->)%request_stop_Some.
    apply (run_at_once_frame s); try done.
    + apply length_insert.
    + by apply (in_flight_insert_same _ i t).
  - intros ->%destructor_notify_Some.
    apply (run_at_once_frame s); try done.
    + unfold notify_all_job. apply length_fmap.
    + apply in_flight_fmap, running_wake_worker.
  - intros (s1 & Hstep & -> & _ & _ & _ & Hi)%wait_raced_Some.
    apply (run_at_once_JobDispatcherThread i s s1 Hs Hterm) in Hstep.
    apply (run_at_once_frame (destroy s1)); try done.
    + apply (run_at_once_frame s1); try done.
      * unfold destroy, notify_all_job. cbn [thread_pool].
        by rewrite !length_fmap.
      * unfold destroy, notify_all_job. cbn [thread_pool].
        rewrite in_flight_fmap by apply running_wake_worker.
        by rewrite in_flight_fmap.
    + apply length_set_control.
    + by apply (in_flight_set_control _ i _ (JThread true (Waiting true))).
Qed.

Lemma run_at_once_AsyncJobQueue (n : N) (w : W) :
  (n ≤ 1)%N → run_at_once (AsyncJobQueue (K:=K) (E:=E) n w).
Proof.
  intros Hn. split; simpl.
  - rewrite length_replicate. lia.
  - intros _. assert (n = 0 ∨ n = 1)%N as [-> | ->] by lia; done.
Qed.

(** C5 — Global FIFO dispatch.  In an execution that submits jobs (under
    any keys) and never cancels, the entries taken by the workers, in the
    order in which they were taken, followed by the entries still in the
    job store, are exactly the submissions in call order: every worker
    takes the head of the one shared sequence, whatever its key.  With a
    single worker the jobs are also run in that order: the jobs run so far,
    followed by the one taken and about to run, are the entries taken.
    With several workers the calls of [job.get()] are made after the unlock
    of line 180, and nothing orders them. *)
Theorem global_fifo_dispatch (number_of_threads : N) (w : W) ls s :
  run ls (AsyncJobQueue number_of_threads w) = Some s →
  forallb (λ l, negb (is_cancel l)) ls = true →
  dispatched s ++ job_list s = submissions ls
  ∧ ((number_of_threads ≤ 1)%N → terminated s = None →
     executed s ++ in_flight (thread_pool s) = dispatched s).
Proof.
  intros Hrun Hls. split.
  - by rewrite (run_order ls _ s Hrun Hls).
  - intros Hn.
    apply (run_preserves run_at_once ls run_at_once_step _ s
             (run_at_once_AsyncJobQueue number_of_threads w Hn) Hrun).
Qed.

(** A pool without threads: no step starts or runs a job. *)
Lemma no_thread_step l s s' :
  thread_pool s = [] → step l s = Some s' →
  thread_pool s' = [] ∧ dispatched s' = dispatched s
  ∧ executed s' = executed s ∧ world s' = world s.
Proof.
  intros Htp. unfold step. destruct (terminated s); [done|].
  assert (∀ key (job : future W E) wake,
            submit key job wake s = Some s' →
            thread_pool s' = [] ∧ dispatched s' = dispatched s
            ∧ executed s' = executed s ∧ world s' = world s) as Hsubmit.
  { intros key job wake. unfold submit.
    destruct (emplace_back (key, job) (job_list s)); [simpl|done].
    rewrite Htp. simpl. by intros [= <-]. }
  destruct l as [key func wake|key cb func wake|R key cb func wake|ts|ts|
                 |i|j|i|j|i| |i]; simpl.
  - apply Hsubmit.
  - apply Hsubmit.
  - apply Hsubmit.
  - by intros [= <-].
  - by intros [= <-].
  - intros [= <-]. simpl. by rewrite Htp.
  - unfold JobDispatcherThread. by rewrite Htp.
  - unfold Join_resume.
    destruct (join_callers s !! j) as [[ts [[]|]]|]; try done.
    by intros [= <-].
  - unfold spurious_worker. by rewrite Htp.
  - unfold spurious_joiner.
    destruct (join_callers s !! j) as [c|]; [simpl|done].
    destruct (join_at c) as [[]|]; try done. by intros [= <-].
  - unfold request_stop. by rewrite Htp.
  - intros ->%destructor_notify_Some. simpl. by rewrite Htp.
  - unfold wait_raced. by rewrite Htp.
Qed.

Lemma no_thread_run ls s s' :
  thread_pool s = [] → run ls s = Some s' →
  thread_pool s' = [] ∧ dispatched s' = dispatched s
  ∧ executed s' = executed s ∧ world s' = world s.
Proof.
  revert s. induction ls as [|l ls IH]; intros s Htp; simpl.
  - by intros [= <-].
  - destruct (step l s) as [s1|] eqn:Hl; [simpl|done]. intros Hrun.
    destruct (no_thread_step l s s1 Htp Hl) as (Htp1 & <- & <- & <-).
    by apply IH.
Qed.

Lemma Join_predicate_nonempty ts s :
  job_list s ≠ [] → Join_predicate ts s = false ∧ Ready ts s = false.
Proof.
  intros Hjl. unfold Join_predicate, Ready.
  destruct (job_list s); [done|]. by destruct ts.
Qed.

(** C10 — A pool without threads.  The constructor builds a pool for
    [number_of_threads = 0] as for any other number, and the default
    argument is zero when the concurrency hint is zero.  In every execution
    of such a pool no job is taken from the job store, none is run and the
    user's memory is never touched; as long as nothing is cancelled the job store
    holds every submission, and once it is non-empty the predicate of
    [Join(ts...)] is false. *)
Theorem zero_thread_pool (w : W) ls s :
  run ls (AsyncJobQueue 0 w) = Some s →
  default_number_of_threads 0 = 0%N
  ∧ thread_pool s = []
  ∧ dispatched s = []
  ∧ executed s = []
  ∧ world s = w
  ∧ (forallb (λ l, negb (is_cancel l)) ls = true →
     job_list s = submissions ls
     ∧ (submissions ls ≠ [] →
        ∀ ts, Join_predicate ts s = false ∧ Ready ts s = false)).
Proof.
  intros Hrun. split; [reflexivity|].
  destruct (no_thread_run ls (AsyncJobQueue 0 w) s eq_refl Hrun)
    as (Htp & Hst & Hex & Hw).
  split; [done|]. split; [done|]. split; [done|]. split; [done|].
  intros Hls. pose proof (run_order ls _ s Hrun Hls) as Ho.
  rewrite Hst in Ho. simpl in Ho. split; [done|].
  intros Hsub ts. apply Join_predicate_nonempty. by rewrite Ho.
Qed.


(** C9 — A job that throws.  [job.get()] rethrows on the worker, which has
    no handler: the step ends the whole process.  The job store, both maps
    and the thread pool are left as they were, so the job stays counted in
    the in-progress-count map (its accounting is never done), and no
    thread takes another step. *)
Theorem thrown_job_terminates_the_pool i t key (job : future W E) e w' s :
  reachable s →
  terminated s = None →
  thread_pool s !! i = Some t →
  at_point t = Running key job →
  get job (world s) = (Thrown e, w') →
  ∃ s', step (WorkerStep i) s = Some s'
        ∧ terminated s' = Some e
        ∧ world s' = w'
        ∧ job_list s' = job_list s
        ∧ pending_job_count_map s' = pending_job_count_map s
        ∧ in_progress_job_count_map s' = in_progress_job_count_map s
        ∧ thread_pool s' = thread_pool s
        ∧ contains (in_progress_job_count_map s') key = true
        ∧ ∀ l, step l s' = None.
Proof.
  intros Hs Hterm Hi Hat Hget.
  eexists. split.
  { unfold step. rewrite Hterm. unfold JobDispatcherThread.
    rewrite Hi. simpl. rewrite Hat. unfold run_job. by rewrite Hget. }
  simpl. repeat split; try done.
  apply (taken_key_has_entry s i t key (reachable_accounted s Hs) Hi).
  unfold holding. rewrite Hat. by rewrite decide_True.
Qed.
End KeyedClaims.

Section KeyedCallback.
Import Keyed.
Context `{Countable K} {W E R : Type}.
Local Abbreviation traced_state :=
  (@Keyed.state K _ _ (W * list (invocation R)) E).
Implicit Types (s : traced_state) (key : K).

End KeyedCallback.

Section KeyedExamples.
Import Keyed Examples.
Open Scope string_scope.
Open Scope list_scope.

Lemma one_running_reachable : reachable one_running.
Proof.
  exists 1%N, 0, [CallAdd "A" bump 0; WorkerStep 0].
  split; [by vm_compute|reflexivity].
Qed.

Lemma sparse_map_invariant_witness :
  reachable one_running
  ∧ (contains (pending_job_count_map one_running) "A" = true
     ↔ (0 < at_key (pending_job_count_map one_running) "A")%N)
  ∧ at_key (pending_job_count_map one_running) "A"
    = N.of_nat (key_jobs "A" (job_list one_running))
  ∧ (contains (in_progress_job_count_map one_running) "A" = true
     ↔ (0 < at_key (in_progress_job_count_map one_running) "A")%N)
  ∧ at_key (in_progress_job_count_map one_running) "A"
    = N.of_nat (key_workers "A" (thread_pool one_running)).
Proof.
  split; [apply one_running_reachable|].
  apply (sparse_map_invariant one_running "A"), one_running_reachable.
Defined.

Lemma cancel_target_reachable : reachable cancel_target.
Proof.
  exists 1%N, 0,
    [CallAdd "B" bump 0; WorkerStep 0; CallAdd "A" bump 0;
     CallAdd "B" bump 0; CallAdd "A" double 0].
  split; [by vm_compute|reflexivity].
Qed.

(** [Cancel("A")] in [cancel_target]: of the three queued entries the two
    of key ["A"] go and the one of key ["B"] stays, the pending count of
    ["A"] is erased and that of ["B"] kept, and the job of key ["B"] that a
    worker holds stays counted. *)
Lemma Cancel_selective_witness :
  reachable cancel_target
  ∧ job_list cancel_target
    = [("A", async_deferred (job_Add bump));
       ("B", async_deferred (job_Add bump));
       ("A", async_deferred (job_Add double))]
  ∧ pending_job_count_map cancel_target !! "A" = Some 2%N
  ∧ job_list (Cancel ["A"] cancel_target)
    = [("B", async_deferred (job_Add bump))]
  ∧ pending_job_count_map (Cancel ["A"] cancel_target) !! "A" = None
  ∧ pending_job_count_map (Cancel ["A"] cancel_target) !! "B" = Some 1%N
  ∧ in_progress_job_count_map (Cancel ["A"] cancel_target) !! "B"
    = Some 1%N
  ∧ ["A"] ≠ []
  ∧ job_list (Cancel ["A"] cancel_target)
    = filter (λ e, e.1 ∉ ["A"]) (job_list cancel_target)
  ∧ (∀ k, pending_job_count_map (Cancel ["A"] cancel_target) !! k
          = if decide (k ∈ ["A"]) then None
            else pending_job_count_map cancel_target !! k)
  ∧ in_progress_job_count_map (Cancel ["A"] cancel_target)
    = in_progress_job_count_map cancel_target.
Proof.
  split; [apply cancel_target_reachable|].
  do 6 (split; [reflexivity|]).
  split; [done|]. apply (Cancel_selective ["A"] cancel_target). done.
Defined.

(** C1 — [Ready] without keys.  In the reachable state [one_running] the
    job store is empty and a job of key ["A"] is in progress: [Ready()]
    answers [true] although the in-progress-count map is not empty, while
    the predicate of [Join()] is [false] there. *)
Theorem Ready_without_keys_ignores_the_maps :
  reachable one_running
  ∧ Ready [] one_running = true
  ∧ in_progress_job_count_map one_running ≠ ∅
  ∧ Join_predicate [] one_running = false.
Proof.
  split; [apply one_running_reachable|].
  split; [reflexivity|]. split; [|reflexivity].
  intros Hempty.
  assert (in_progress_job_count_map one_running !! "A" = Some 1%N) as Hin
    by reflexivity.
  rewrite Hempty in Hin. by rewrite lookup_empty in Hin.
Qed.

(** Counterexample to C5 as stated: with two workers the jobs do not
    begin execution in submission order.  [Add("A", double)] is called
    before [Add("B", bump)]; worker 0 takes the job of ["A"] and worker 1
    the job of ["B"], in submission order; both have unlocked the mutex, and
    worker 1 calls [job.get()] first.  The job of ["B"] runs before the job
    of ["A"]: the counter ends at 2, where submission order gives 1. *)
Lemma two_workers_run_out_of_order :
  run [CallAdd "A" double 0; CallAdd "B" bump 0;
       WorkerStep 0; WorkerStep 1; WorkerStep 1; WorkerStep 0]
    (AsyncJobQueue 2 0)
  = Some ran_out_of_order
  ∧ submissions
      [CallAdd "A" double 0; CallAdd "B" bump 0;
       WorkerStep (K:=string) (W:=nat) (E:=string) 0; WorkerStep 1;
       WorkerStep 1; WorkerStep 0]
    = [("A", async_deferred (job_Add double));
       ("B", async_deferred (job_Add bump))]
  ∧ dispatched ran_out_of_order
    = [("A", async_deferred (job_Add double));
       ("B", async_deferred (job_Add bump))]
  ∧ executed ran_out_of_order
    = [("B", async_deferred (job_Add bump));
       ("A", async_deferred (job_Add double))]
  ∧ terminated ran_out_of_order = None
  ∧ world ran_out_of_order = 2
  ∧ run_jobs
      [("A", async_deferred (job_Add double));
       ("B", async_deferred (job_Add bump))] 0
    = 1.
Proof. repeat split; reflexivity. Qed.

(** One worker and three submissions under two keys: the entries taken and
    the one queued are the submissions in call order, and the job run so
    far, followed by the one taken and about to run, are the entries
    taken. *)
Lemma global_fifo_dispatch_witness :
  run [CallAdd "A" double 0; CallAdd "B" bump 0; CallAdd "A" bump 0;
       WorkerStep 0; WorkerStep 0; WorkerStep 0; WorkerStep 0]
    (AsyncJobQueue 1 3)
  = Some fifo_one_worker
  ∧ dispatched fifo_one_worker
    = [("A", async_deferred (job_Add double));
       ("B", async_deferred (job_Add bump))]
  ∧ job_list fifo_one_worker = [("A", async_deferred (job_Add bump))]
  ∧ executed fifo_one_worker = [("A", async_deferred (job_Add double))]
  ∧ in_flight (thread_pool fifo_one_worker)
    = [("B", async_deferred (job_Add bump))]
  ∧ dispatched fifo_one_worker ++ job_list fifo_one_worker
    = submissions
        [CallAdd "A" double 0; CallAdd "B" bump 0; CallAdd "A" bump 0;
         WorkerStep 0; WorkerStep 0; WorkerStep 0; WorkerStep 0]
  ∧ executed fifo_one_worker ++ in_flight (thread_pool fifo_one_worker)
    = dispatched fifo_one_worker.
Proof.
  do 5 (split; [reflexivity|]).
  destruct (global_fifo_dispatch 1 3
              [CallAdd "A" double 0; CallAdd "B" bump 0; CallAdd "A" bump 0;
               WorkerStep 0; WorkerStep 0; WorkerStep 0; WorkerStep 0]
              fifo_one_worker eq_refl eq_refl) as [Htaken Hrun].
  split; [exact Htaken|]. apply Hrun; [done|reflexivity].
Defined.

Lemma zero_thread_pool_witness :
  run [CallAdd "A" bump 0] (AsyncJobQueue 0 0) = Some zero_threads_one_job
  ∧ default_number_of_threads 0 = 0%N
  ∧ thread_pool zero_threads_one_job = []
  ∧ dispatched zero_threads_one_job = []
  ∧ executed zero_threads_one_job = []
  ∧ world zero_threads_one_job = 0
  ∧ (forallb (λ l, negb (is_cancel l)) [CallAdd "A" bump 0] = true →
     job_list zero_threads_one_job = submissions [CallAdd "A" bump 0]
     ∧ (submissions [CallAdd "A" bump 0] ≠ [] →
        ∀ ts, Join_predicate ts zero_threads_one_job = false
              ∧ Ready ts zero_threads_one_job = false)).
Proof.
  split; [reflexivity|].
  apply (zero_thread_pool 0 [CallAdd "A" bump 0] zero_threads_one_job).
  reflexivity.
Defined.



Lemma before_throw_reachable : reachable before_throw.
Proof.
  exists 2%N, 0, [CallAdd "A" boom 0; CallAdd "B" bump 0; WorkerStep 0].
  split; [by vm_compute|reflexivity].
Qed.

(** Counterexample to C9 as stated: a throwing job ends the pool.  Two
    workers, a throwing job of key ["A"] and a second job of key ["B"].  Worker 0 takes and runs the
    first job: the process is terminated, key ["A"] is still counted as in
    progress, the second job is still queued, and neither worker 1 nor
    anybody else takes another step. *)
Lemma throwing_job_ends_the_pool :
  run [CallAdd "A" boom 0; CallAdd "B" bump 0; WorkerStep 0; WorkerStep 0]
    (AsyncJobQueue 2 0)
  = Some after_throw
  ∧ terminated after_throw = Some "boom"
  ∧ executed after_throw = [("A", async_deferred (job_Add boom))]
  ∧ contains (in_progress_job_count_map after_throw) "A" = true
  ∧ job_list after_throw = [("B", async_deferred (job_Add bump))]
  ∧ thread_pool after_throw !! 1 = Some (JThread false LoopTop)
  ∧ ∀ l, step l after_throw = None.
Proof.
  repeat split; reflexivity.
Qed.

Lemma thrown_job_terminates_the_pool_witness :
  ∃ s', step (WorkerStep 0) before_throw = Some s'
        ∧ terminated s' = Some "boom"
        ∧ world s' = 0
        ∧ job_list s' = job_list before_throw
        ∧ pending_job_count_map s' = pending_job_count_map before_throw
        ∧ in_progress_job_count_map s'
          = in_progress_job_count_map before_throw
        ∧ thread_pool s' = thread_pool before_throw
        ∧ contains (in_progress_job_count_map s') "A" = true
        ∧ ∀ l, step l s' = None.
Proof.
  apply (thrown_job_terminates_the_pool 0
           (JThread false (Running "A" (async_deferred (job_Add boom))))
           "A" (async_deferred (job_Add boom)) "boom" 0 before_throw);
    try reflexivity.
  apply before_throw_reachable.
Defined.



(** C4 — A wake-up lost by [Cancel].  One worker goes to sleep on the
    empty job store; a job of key ["A"] is added; [Join("A")] finds its
    predicate false and blocks; [Cancel("A")] removes the job and notifies
    nobody; the worker, woken by the submission, finds the job store empty
    and sleeps again.  In the state reached the predicate of the blocked
    [Join("A")] holds, the caller has not been notified, and no worker and
    no caller of [Join] can take a step: without a further call from
    outside, or a spurious wake-up, the caller stays blocked. *)
Theorem Cancel_loses_the_wakeup :
  run [WorkerStep 0; CallAdd "A" bump 0; CallJoin ["A"]; CallCancel ["A"];
       WorkerStep 0]
    (AsyncJobQueue 1 0)
  = Some lost_wakeup
  ∧ join_callers lost_wakeup = [Joiner ["A"] (JoinBlocked false)]
  ∧ Join_predicate ["A"] lost_wakeup = true
  ∧ ∀ l, own_step l = true → step l lost_wakeup = None.
Proof.
  split; [reflexivity|]. split; [reflexivity|]. split; [reflexivity|].
  intros [| | | | | |[|i]|[|j]| | | | |]; simpl; try done.
Qed.
End KeyedExamples.

(** * The queue without keys: the claims *)

Section NoKeyClaims.
Import NoKey.
Context {W E : Type}.
Local Abbreviation state := (@NoKey.state W E).
Implicit Types (s : state).

(** What the predicate of [Join()] looks at: the counter only, whatever
    the job queue holds. *)
Lemma NoKey_Join_predicate_counter s :
  Join_predicate s = true ↔ number_of_busy_threads s = 0%N.
Proof. unfold Join_predicate. apply bool_decide_eq_true. Qed.

(** A job that throws ends the process here as well. *)
Lemma NoKey_thrown_job_terminates i t (job : future W E) e w' s :
  terminated s = None →
  thread_pool s !! i = Some t →
  at_point t = Running job →
  get job (world s) = (Thrown e, w') →
  ∃ s', step (WorkerStep i) s = Some s'
        ∧ terminated s' = Some e
        ∧ ∀ l, step l s' = None.
Proof.
  intros Hterm Hi Hat Hget. eexists. split.
  { unfold step. rewrite Hterm. unfold JobDispatcherThread.
    rewrite Hi. simpl. rewrite Hat. unfold run_job. by rewrite Hget. }
  done.
Qed.
End NoKeyClaims.

Section NoKeyExamples.
Import NoKey Examples.

(** C3 — [Join()] returns over a queued job.  The only worker finds the
    queue empty, takes itself off the busy count and sleeps; a job is
    added, which wakes the worker but leaves the count at zero until the
    worker has the mutex again; [Join()], called before that, finds the
    count at zero and returns.  The job is still queued: no worker has
    taken it and the user's memory is untouched. *)
Theorem NoKey_Join_returns_over_a_queued_job :
  run [WorkerStep 0; CallAdd bump 0; CallJoin] (AsyncJobQueue 1 0)
  = Some joined_too_early
  ∧ join_callers joined_too_early = [JoinReturned]
  ∧ job_queue joined_too_early = [async_deferred (job_Add bump)]
  ∧ dispatched joined_too_early = []
  ∧ executed joined_too_early = []
  ∧ world joined_too_early = 0.
Proof. repeat split; reflexivity. Qed.
End NoKeyExamples.

(** * The keyed queue: further properties *)

Section KeyedProperties.
Import Keyed.
Context `{Countable K} {W E : Type}.
Local Abbreviation state := (@Keyed.state K _ _ W E).
Local Abbreviation label := (@Keyed.label K W E).
Local Abbreviation jthread := (@Keyed.jthread K W E).
Implicit Types (s : state) (l : label) (k key : K) (ts : list K)
  (tp : list jthread) (t : jthread).

Lemma length_thread_pool_step l s s' :
  step l s = Some s' → length (thread_pool s') = length (thread_pool s).
Proof.
  unfold step. destruct (terminated s); [done|].
  assert (∀ key (job : future W E) wake,
            submit key job wake s = Some s' →
            length (thread_pool s') = length (thread_pool s)) as Hsubmit.
  { intros key job wake. unfold submit.
    destruct (emplace_back (key, job) (job_list s)); [simpl|done].
    destruct (notify_one wake (thread_pool s)) as [tp'|] eqn:Htp; [|done].
    simpl. intros [= <-]. simpl.
    by destruct (in_flight_notify_one _ _ _ Htp) as [_ ->]. }
  destruct l as [key func wake|key cb func wake|R key cb func wake|ts|ts|
                 |i|j|i|j|i| |i]; simpl.
  - apply Hsubmit.
  - apply Hsubmit.
  - apply Hsubmit.
  - by intros [= <-].
  - by intros [= <-].
  - intros [= <-]. simpl. unfold notify_all_job. by rewrite !length_fmap.
  - unfold JobDispatcherThread.
    destruct (thread_pool s !! i) as [t|]; [simpl|done].
    destruct (at_point t) as [|[]|key job|key|]; intros [= <-]; simpl.
    + unfold loop_head. destruct (job_list s) as [|[key job] rest]; simpl;
        apply length_set_control.
    + apply length_set_control.
    + unfold run_job. destruct (get job (world s)) as [[[]|e] w']; simpl;
        [apply length_set_control|done].
    + apply length_set_control.
  - unfold Join_resume.
    destruct (join_callers s !! j) as [[ts [[]|]]|]; try done.
    by intros [= <-].
  - unfold spurious_worker.
    destruct (thread_pool s !! i) as [t|]; [simpl|done].
    destruct (blocked t); [|done]. intros [= <-]. simpl.
    by rewrite length_insert.
  - unfold spurious_joiner.
    destruct (join_callers s !! j) as [c|]; [simpl|done].
    destruct (join_at c) as [[]|]; try done. by intros [= <-].
  - intros (t & _ & ->)%request_stop_Some. apply length_insert.
  - intros ->%destructor_notify_Some. unfold notify_all_job.
    apply length_fmap.
  - intros (s1 & Hstep & -> & _)%wait_raced_Some.
    cbn [miss_worker set_thread_pool thread_pool destroy].
    rewrite length_set_control. unfold notify_all_job.
    rewrite !length_fmap. revert Hstep. unfold JobDispatcherThread.
    destruct (thread_pool s !! i) as [t|]; [simpl|done].
    destruct (at_point t) as [|[]|key job|key|]; intros [= <-]; simpl.
    + unfold loop_head. destruct (job_list s) as [|[key job] rest]; simpl;
        apply length_set_control.
    + apply length_set_control.
    + unfold run_job. destruct (get job (world s)) as [[[]|e] w']; simpl;
        [apply length_set_control|done].
    + apply length_set_control.
Qed.

(** X1 — Concurrency bound.  The pool keeps the size it was built with,
    and the in-progress count of a key never exceeds that size. *)
Theorem pool_size_bounds_in_progress (number_of_threads : N) (w : W) ls s k :
  (number_of_threads ≤ SIZE_MAX)%N →
  run ls (AsyncJobQueue number_of_threads w) = Some s →
  length (thread_pool s) = N.to_nat number_of_threads
  ∧ (at_key (in_progress_job_count_map s) k ≤ number_of_threads)%N.
Proof.
  intros Hn Hrun.
  assert (length (thread_pool s) = N.to_nat number_of_threads) as Hlen.
  { apply (run_preserves
             (λ s, length (thread_pool s) = N.to_nat number_of_threads) ls)
      with (s := AsyncJobQueue number_of_threads w); [|..|done].
    - intros l s1 s2 Hs1 Hstep.
      by rewrite (length_thread_pool_step l s1 s2 Hstep).
    - simpl. apply length_replicate. }
  split; [done|].
  assert (reachable s) as Hs by (by exists number_of_threads, w, ls).
  destruct (reachable_accounted s Hs) as [_ Hip _ _].
  rewrite (sparse_at_key _ _ _ (Hip k)).
  pose proof (key_workers_le k (thread_pool s)). lia.
Qed.

(** X2 — The pending-count map is empty exactly when the job store is. *)
Theorem pending_map_empty_iff_store_empty s :
  reachable s → (pending_job_count_map s = ∅ ↔ job_list s = []).
Proof.
  intros Hs. destruct (reachable_accounted s Hs) as [Hp _ _ _]. split.
  - intros Hempty. destruct (job_list s) as [|[key job] rest] eqn:Hjl; [done|].
    specialize (Hp key). rewrite Hempty, lookup_empty, key_jobs_cons in Hp.
    by rewrite decide_True in Hp.
  - intros Hjl. apply map_eq. intros k.
    by rewrite Hp, Hjl, lookup_empty.
Qed.

Lemma Join_predicate_reachable_iff ts s :
  reachable s →
  (Join_predicate ts s = true
   ↔ job_list s = []
     ∧ ∀ k, cancelled ts k → key_workers k (thread_pool s) = 0).
Proof.
  intros Hs. pose proof (reachable_accounted s Hs) as [Hp Hip _ _].
  assert (∀ k, job_list s = [] → pending_job_count_map s !! k = None) as Hpn.
  { intros k Hjl. by rewrite Hp, Hjl. }
  assert (∀ k, in_progress_job_count_map s !! k = None
               ↔ key_workers k (thread_pool s) = 0) as Hipn.
  { intros k. rewrite Hip. by destruct (key_workers k (thread_pool s)). }
  destruct ts as [|t ts]; simpl.
  - unfold map_empty. rewrite !andb_true_iff, !bool_decide_eq_true.
    rewrite std_empty_true. split.
    + intros [[Hjl _] Hipe]. split; [done|]. intros k _.
      apply Hipn. by rewrite Hipe, lookup_empty.
    + intros [Hjl Hall]. split; [split; [done|]|].
      * apply map_eq. intros k. by rewrite Hpn, lookup_empty.
      * apply map_eq. intros k. rewrite lookup_empty. apply Hipn, Hall.
        by left.
  - rewrite Ready_keys. split.
    + intros [Hjl Hall]. split; [done|]. intros k [Hk|Hk]; [done|].
      apply Hipn. by apply Hall.
    + intros [Hjl Hall]. split; [done|]. intros k Hk. split.
      * by apply Hpn.
      * apply Hipn, Hall. by right.
Qed.

(** X3 — What [Join] waits for.  In a reachable state the predicate of
    [Join(ts...)] (for one key or more, the value of [Ready(ts...)]) holds
    exactly when the job store holds no entry at all, of whatever key, and
    no worker holds a job of a key of [ts] (of any key, when [ts] is
    empty). *)
Theorem Join_predicate_reachable ts s :
  reachable s →
  (Join_predicate ts s = true
   ↔ job_list s = []
     ∧ ∀ k, cancelled ts k → key_workers k (thread_pool s) = 0).
Proof. apply Join_predicate_reachable_iff. Qed.

(** X4 — [Add] counts exactly one.  In a reachable state a successful
    [Add(key, func)] appends one entry to the job store, raises the pending
    count of [key] by one (the counter does not wrap) and leaves the other
    keys' counts alone; right after it [Ready] is false for every pack of
    keys, and so is the predicate of every [Join]. *)
Theorem Add_counts_one key (func : callable W E unit) wake s s' :
  reachable s →
  Add key func wake s = Some s' →
  job_list s' = job_list s ++ [(key, async_deferred (job_Add func))]
  ∧ at_key (pending_job_count_map s') key
    = (at_key (pending_job_count_map s) key + 1)%N
  ∧ (∀ k, k ≠ key →
       pending_job_count_map s' !! k = pending_job_count_map s !! k)
  ∧ in_progress_job_count_map s' = in_progress_job_count_map s
  ∧ ∀ ts, Ready ts s' = false ∧ Join_predicate ts s' = false.
Proof.
  intros Hs Hadd. pose proof (reachable_accounted s Hs) as Hacc.
  pose proof (accounted_submit _ _ _ _ _ Hacc Hadd) as [Hp' _ _ _].
  destruct Hacc as [Hp _ _ _].
  destruct (submit_order _ _ _ _ _ Hadd) as [_ Hjl].
  split; [done|]. split; [|split; [|split]].
  - rewrite (sparse_at_key _ _ _ (Hp' key)), (sparse_at_key _ _ _ (Hp key)).
    rewrite Hjl, key_jobs_snoc. rewrite decide_True by done. lia.
  - intros k Hne. rewrite Hp', Hp, Hjl, key_jobs_snoc.
    by rewrite decide_False.
  - unfold Add, submit in Hadd.
    destruct (emplace_back _ (job_list s)); [simpl in Hadd|done].
    destruct (notify_one wake (thread_pool s)); [|done].
    by injection Hadd as <-.
  - intros ts. split; apply Join_predicate_nonempty; rewrite Hjl;
      by destruct (job_list s).
Qed.

Lemma filter_keys_twice ts (jl : list (K * future W E)) :
  filter (λ e, e.1 ∉ ts) (filter (λ e, e.1 ∉ ts) jl)
  = filter (λ e, e.1 ∉ ts) jl.
Proof.
  induction jl as [|e jl IH]; [done|].
  rewrite (filter_cons _ e jl). destruct (decide (e.1 ∉ ts)) as [Hout|Hin].
  - rewrite filter_cons. by rewrite decide_True, IH.
  - apply IH.
Qed.

(** X5 — [Cancel] twice is [Cancel] once: a second call with the same
    keys changes nothing. *)
Theorem Cancel_idempotent ts s : Cancel ts (Cancel ts s) = Cancel ts s.
Proof.
  unfold Cancel. destruct ts as [|t ts]; [done|].
  cbn [job_list pending_job_count_map in_progress_job_count_map thread_pool
       join_callers world dispatched executed terminated].
  f_equal.
  - apply filter_keys_twice.
  - apply map_eq. intros k. rewrite !lookup_erase_keys.
    by destruct (decide (k ∈ t :: ts)).
Qed.

Lemma key_jobs_none k (jl : list (K * future W E)) :
  key_jobs k jl = 0 → Forall (λ e, e.1 ≠ k) jl.
Proof.
  induction jl as [|[key job] jl IH]; [by constructor|].
  rewrite key_jobs_cons. destruct (decide (k = key)) as [->|Hne]; [done|].
  intros Hz. constructor; [simpl; congruence|by apply IH].
Qed.

Lemma filter_keys_all ts (jl : list (K * future W E)) :
  Forall (λ e, e.1 ∉ ts) jl → filter (λ e, e.1 ∉ ts) jl = jl.
Proof.
  induction 1 as [|e jl He _ IH]; [done|].
  rewrite filter_cons. by rewrite decide_True, IH.
Qed.

(** X6 — Cancelling keys that have nothing queued.  In a reachable state,
    [Cancel(ts...)] for keys none of which has an entry in the
    pending-count map leaves the whole state as it was. *)
Theorem Cancel_absent_keys ts s :
  reachable s →
  ts ≠ [] →
  (∀ k, k ∈ ts → contains (pending_job_count_map s) k = false) →
  Cancel ts s = s.
Proof.
  intros Hs Hts Habsent. destruct (reachable_accounted s Hs) as [Hp _ _ _].
  assert (Forall (λ e, e.1 ∉ ts) (job_list s)) as Hall.
  { apply Forall_forall. intros e He Hin.
    specialize (Habsent e.1 Hin).
    destruct (key_jobs e.1 (job_list s)) eqn:Hc.
    - pose proof (key_jobs_none _ _ Hc) as Hne.
      rewrite Forall_forall in Hne. by apply (Hne e He).
    - assert (contains (pending_job_count_map s) e.1 = true) as Hcon
        by (apply (sparse_contains _ _ _ (Hp e.1)); lia).
      congruence. }
  destruct ts as [|t0 ts]; [done|]. destruct s as [jl p ip tp jc w d e tm].
  unfold Cancel.
  cbn [job_list pending_job_count_map in_progress_job_count_map thread_pool
       join_callers world dispatched executed terminated] in *.
  f_equal.
  - by apply filter_keys_all.
  - apply map_eq. intros k. rewrite lookup_erase_keys.
    destruct (decide (k ∈ t0 :: ts)) as [Hk|Hk]; [|done].
    specialize (Habsent k Hk). unfold contains in Habsent.
    by destruct (p !! k).
Qed.

(** What a step does to the job store and to the history of the entries
    taken: it appends a submission, or moves the head, or cancels, or leaves
    both alone. *)
Lemma step_store l s s' :
  step l s = Some s' →
  (∃ e, submission l = Some e
        ∧ job_list s' = job_list s ++ [e] ∧ dispatched s' = dispatched s)
  ∨ (submission l = None
     ∧ ∃ e, job_list s = e :: job_list s'
            ∧ dispatched s' = dispatched s ++ [e])
  ∨ (submission l = None
     ∧ ∃ ts, job_list s' = job_list (Cancel ts s)
             ∧ dispatched s' = dispatched s)
  ∨ (submission l = None
     ∧ job_list s' = job_list s ∧ dispatched s' = dispatched s).
Proof.
  unfold step. destruct (terminated s); [done|].
  destruct l as [key func wake|key cb func wake|R key cb func wake|ts|ts|
                 |i|j|i|j|i| |i]; simpl; intros Hstep.
  - left. eexists. split; [done|].
    by destruct (submit_order _ _ _ _ _ Hstep) as [-> ->].
  - left. eexists. split; [done|].
    by destruct (submit_order _ _ _ _ _ Hstep) as [-> ->].
  - left. eexists. split; [done|].
    by destruct (submit_order _ _ _ _ _ Hstep) as [-> ->].
  - right. right. right. by injection Hstep as <-.
  - right. right. left. split; [done|]. exists ts. by injection Hstep as <-.
  - right. right. right. by injection Hstep as <-.
  - unfold JobDispatcherThread in Hstep.
    destruct (thread_pool s !! i) as [t|]; [simpl in Hstep|done].
    destruct (at_point t) as [|[]|key job|key|]; try discriminate Hstep;
      injection Hstep as <-; try (by right; right; right).
    + unfold loop_head. destruct (job_list s) as [|[key job] rest]; simpl.
      * by right; right; right.
      * right. left. split; [done|]. by exists (key, job).
    + unfold run_job. destruct (get job (world s)) as [[[]|e] w'];
        by right; right; right.
  - unfold Join_resume in Hstep.
    destruct (join_callers s !! j) as [[ts [[]|]]|]; try done.
    right. right. right. by injection Hstep as <-.
  - unfold spurious_worker in Hstep.
    destruct (thread_pool s !! i) as [t|]; [simpl in Hstep|done].
    destruct (blocked t); [|done].
    right. right. right. by injection Hstep as <-.
  - unfold spurious_joiner in Hstep.
    destruct (join_callers s !! j) as [c|]; [simpl in Hstep|done].
    destruct (join_at c) as [[]|]; try done.
    right. right. right. by injection Hstep as <-.
  - right. right. right.
    by apply request_stop_Some in Hstep as (t & _ & ->).
  - right. right. right. by apply destructor_notify_Some in Hstep as ->.
  - right. right. right.
    apply wait_raced_Some in Hstep as (s1 & _ & -> & Hjl & Hjl1 & Hd & _).
    split; [done|]. split; [|exact Hd].
    change (job_list s1 = job_list s). congruence.
Qed.

Lemma Cancel_store_sublist ts s (P : K * future W E → Prop) :
  Forall P (job_list s) → Forall P (job_list (Cancel ts s)).
Proof.
  intros Hall. destruct ts as [|t0 ts]; simpl; [by constructor|].
  rewrite Forall_forall in Hall. apply Forall_forall.
  intros e [_ He]%list_elem_of_filter. by apply Hall.
Qed.

Lemma Cancel_store_clean ts s :
  Forall (λ e, ¬ cancelled ts e.1) (job_list (Cancel ts s)).
Proof.
  destruct ts as [|t0 ts]; simpl; [by constructor|].
  apply Forall_forall. intros e [Hout _]%list_elem_of_filter [Hnil|Hin]; done.
Qed.

Lemma cancelled_stay_out ts ls :
  Forall (λ l, ∀ e, submission l = Some e → ¬ cancelled ts e.1) ls →
  ∀ s s' d0,
    Forall (λ e, ¬ cancelled ts e.1) (job_list s) →
    run ls s = Some s' →
    (∃ d, dispatched s = d0 ++ d ∧ Forall (λ e, ¬ cancelled ts e.1) d) →
    ∃ d, dispatched s' = d0 ++ d ∧ Forall (λ e, ¬ cancelled ts e.1) d.
Proof.
  induction 1 as [|l ls Hl _ IH]; intros s s' d0 Hjl; simpl.
  - by intros [= <-].
  - destruct (step l s) as [s1|] eqn:Hstep; [simpl|done].
    intros Hrun (d & Hd & Hdall).
    destruct (step_store l s s1 Hstep)
      as [(e & He & Hjl1 & Hd1)|[(_ & e & Hjl1 & Hd1)
          |[(_ & ts' & Hjl1 & Hd1)|(_ & Hjl1 & Hd1)]]].
    + apply (IH s1 s' d0); [|done|].
      * rewrite Hjl1. apply Forall_app. split; [done|].
        constructor; [by apply Hl|constructor].
      * exists d. by rewrite Hd1.
    + rewrite Hjl1 in Hjl. apply Forall_cons in Hjl as [He Hrest].
      apply (IH s1 s' d0); [done|done|].
      exists (d ++ [e]). rewrite Hd1, Hd, app_assoc. split; [done|].
      apply Forall_app. split; [done|]. by constructor.
    + apply (IH s1 s' d0); [|done|].
      * rewrite Hjl1. by apply Cancel_store_sublist.
      * exists d. by rewrite Hd1.
    + apply (IH s1 s' d0); [by rewrite Hjl1|done|].
      exists d. by rewrite Hd1.
Qed.

(** X7 — Cancelled jobs are never taken.  After [Cancel(ts...)], as long
    as no job is submitted under a cancelled key (under any key, when [ts]
    is empty), every entry that the workers take from the job store has a
    key that was not cancelled: no entry removed by the call is ever
    dispatched. *)
Theorem cancelled_jobs_never_dispatched ts s ls s' :
  run ls (Cancel ts s) = Some s' →
  Forall (λ l, ∀ e, submission l = Some e → ¬ cancelled ts e.1) ls →
  ∃ d, dispatched s' = dispatched s ++ d
       ∧ Forall (λ e, ¬ cancelled ts e.1) d.
Proof.
  intros Hrun Hls.
  apply (cancelled_stay_out ts ls Hls (Cancel ts s) s' (dispatched s)).
  - apply Cancel_store_clean.
  - done.
  - exists []. split; [by rewrite app_nil_r|constructor].
Qed.

Lemma lookup_set_control_ne i j c tp :
  i ≠ j → set_control j c tp !! i = tp !! i.
Proof.
  intros Hne. unfold set_control. destruct (tp !! j); [|done].
  by apply list_lookup_insert_ne.
Qed.

(** A worker blocked in its wait is moved neither by the steps of the
    other workers nor by those of the callers of [Join]: none of them
    notifies [job_condition_variable]. *)
Lemma own_step_keeps_sleeper l s s' i t :
  own_step l = true → step l s = Some s' →
  thread_pool s !! i = Some t → at_point t = Waiting false →
  thread_pool s' !! i = Some t.
Proof.
  intros Hown Hstep Hi Hat. revert Hstep.
  unfold step. destruct (terminated s); [done|].
  destruct l as [| | | | | |j|j| | | | |]; try done.
  - unfold JobDispatcherThread.
    destruct (decide (i = j)) as [<-|Hne].
    { rewrite Hi. simpl. by rewrite Hat. }
    destruct (thread_pool s !! j) as [tj|]; [simpl|done].
    destruct (at_point tj) as [|[]|key job|key|]; intros [= <-].
    + unfold loop_head. destruct (job_list s) as [|[key job] rest]; simpl;
        by rewrite lookup_set_control_ne.
    + simpl. by rewrite lookup_set_control_ne.
    + unfold run_job. destruct (get job (world s)) as [[[]|e] w']; simpl;
        [by rewrite lookup_set_control_ne|done].
    + simpl. by rewrite lookup_set_control_ne.
  - unfold Join_resume.
    destruct (join_callers s !! j) as [[ts [[]|]]|]; try done.
    by intros [= <-].
Qed.

Lemma own_steps_keep_sleeper ls s s' i t :
  forallb own_step ls = true → run ls s = Some s' →
  thread_pool s !! i = Some t → at_point t = Waiting false →
  thread_pool s' !! i = Some t.
Proof.
  revert s. induction ls as [|l ls IH]; intros s; simpl.
  - by intros _ [= <-].
  - intros [Hl Hls]%andb_true_iff.
    destruct (step l s) as [s1|] eqn:Hstep; [simpl|done].
    intros Hrun Hi Hat. apply (IH s1 Hls Hrun); [|done].
    by apply (own_step_keeps_sleeper l s).
Qed.

(** The raced wait leaves the job store, the maps, the user's memory and
    the histories as they were. *)
Lemma wait_raced_frame i s s' :
  wait_raced i s = Some s' →
  job_list s' = job_list s
  ∧ pending_job_count_map s' = pending_job_count_map s
  ∧ in_progress_job_count_map s' = in_progress_job_count_map s
  ∧ world s' = world s.
Proof.
  unfold wait_raced.
  destruct (thread_pool s !! i) as [t|]; [simpl|done].
  destruct (wait_for_job t s) as [|[]| | |] eqn:Hwait; try done.
  assert (job_list s = []) as Hjl.
  { unfold wait_for_job in Hwait.
    destruct (stop_requested t), (job_list s); simpl in Hwait; done. }
  destruct (at_point t) as [|[]|key job|key|]; try done; intros [= <-].
  - unfold loop_head. by rewrite Hjl.
  - done.
Qed.

(** X8 — The destructor can miss a worker.  The destructor takes no lock.
    When its calls of [request_stop] and its [notify_all] fall between a
    worker's test of its wait predicate and the worker's blocking, then
    afterwards every thread has its stop requested and the job store is
    empty, yet that worker is blocked without a notification, and no step
    of any worker or of any caller of [Join] ever wakes it: it stays in its
    wait and never leaves its loop.  The job store, the two maps and the
    user's memory are as they were. *)
Theorem destructor_can_miss_a_waiting_worker i s s' :
  step (DestructorNotifyRaced i) s = Some s' →
  Forall (λ t, stop_requested t = true) (thread_pool s')
  ∧ thread_pool s' !! i = Some (JThread true (Waiting false))
  ∧ job_list s' = []
  ∧ pending_job_count_map s' = pending_job_count_map s
  ∧ in_progress_job_count_map s' = in_progress_job_count_map s
  ∧ world s' = world s
  ∧ ∀ ls s'', forallb own_step ls = true → run ls s' = Some s'' →
              thread_pool s'' !! i = Some (JThread true (Waiting false)).
Proof.
  unfold step. destruct (terminated s); [done|]. intros Hstep.
  destruct (wait_raced_frame i s s' Hstep) as (Hjl & Hp & Hip & Hw).
  apply wait_raced_Some in Hstep as (s1 & _ & -> & Hjl0 & _ & _ & Hi).
  assert (thread_pool (miss_worker i (destroy s1)) !! i
          = Some (JThread true (Waiting false))) as Hmiss.
  { cbn [miss_worker set_thread_pool thread_pool].
    apply (lookup_set_control i (Waiting false) _ _ Hi). }
  split; [|split; [done|]].
  - cbn [miss_worker set_thread_pool thread_pool].
    unfold set_control. rewrite Hi. apply Forall_insert; [|done].
    simpl. unfold notify_all_job. rewrite <- list_fmap_compose.
    apply Forall_fmap, Forall_true. intros t. simpl.
    unfold wake_worker. simpl. by destruct (at_point t).
  - split; [congruence|]. split; [done|]. split; [done|]. split; [done|].
    intros ls s'' Hls Hrun.
    by apply (own_steps_keep_sleeper ls (miss_worker i (destroy s1)) s'').
Qed.

(** X9 — When a worker leaves its loop.  A step of a worker ends in
    [Exited] exactly when its stop has been requested, the job store is
    empty, and the worker stands at the head of its loop or has been
    notified in its wait. *)
Theorem worker_exits_iff i t s s' :
  thread_pool s !! i = Some t →
  step (WorkerStep i) s = Some s' →
  (thread_pool s' !! i = Some (JThread (stop_requested t) Exited)
   ↔ stop_requested t = true ∧ job_list s = []
     ∧ (at_point t = LoopTop ∨ at_point t = Waiting true)).
Proof.
  intros Hi. unfold step. destruct (terminated s); [done|].
  unfold JobDispatcherThread. rewrite Hi. simpl.
  destruct (at_point t) as [|[]|key job|key|] eqn:Hat; intros [= <-].
  - unfold loop_head. destruct (job_list s) as [|[key job] rest] eqn:Hjl;
      simpl; rewrite (lookup_set_control _ _ _ t Hi).
    + unfold wait_for_job. rewrite Hjl. simpl.
      destruct (stop_requested t); simpl; split.
      * intros _. split; [done|]. split; [done|by left].
      * done.
      * done.
      * by intros [? _].
    + split; [done|]. by intros (_ & ? & _).
  - simpl. rewrite (lookup_set_control _ _ _ t Hi).
    unfold wait_for_job. destruct (stop_requested t), (job_list s); simpl;
      split; try done.
    + intros _. split; [done|]. split; [done|by right].
    + by intros (_ & ? & _).
    + by intros (? & _).
    + by intros (? & _).
  - unfold run_job. destruct (get job (world s)) as [[[]|e] w']; simpl.
    + rewrite (lookup_set_control _ _ _ t Hi). split; [done|].
      by intros (_ & _ & [?|?]).
    + rewrite Hi. split.
      * intros [= Heq]. rewrite Heq in Hat. done.
      * by intros (_ & _ & [?|?]).
  - simpl. rewrite (lookup_set_control _ _ _ t Hi). split; [done|].
    by intros (_ & _ & [?|?]).
Qed.

Lemma run_app ls1 ls2 s :
  run (ls1 ++ ls2) s = s1 ← run ls1 s; run ls2 s1.
Proof.
  revert s. induction ls1 as [|l ls1 IH]; intros s; simpl; [done|].
  destruct (step l s) as [s1|]; simpl; [apply IH|done].
Qed.

Lemma reachable_run ls s s' : reachable s → run ls s = Some s' → reachable s'.
Proof.
  intros (n & w & ls0 & Hn & Hrun0) Hrun.
  exists n, w, (ls0 ++ ls). split; [done|].
  rewrite run_app, Hrun0. apply Hrun.
Qed.

Lemma notify_all_join_twice (jc : list (@Keyed.joiner K)) :
  notify_all_join (notify_all_join jc) = notify_all_join jc.
Proof.
  unfold notify_all_join. rewrite <- list_fmap_compose.
  apply list_fmap_ext. intros _ [ts [b|]] _; done.
Qed.

(** One worker at the head of its loop works the job store off: three
    steps for each entry (take, run, account), in the order of the store. *)
Lemma single_worker_works_off stop (jl : list (K * future W E)) :
  ∀ s,
    thread_pool s = [JThread stop LoopTop] →
    terminated s = None →
    job_list s = jl →
    Forall (λ e, returns_normally e.2) jl →
    ∃ s1, run (replicate (3 * length jl) (WorkerStep 0)) s = Some s1
          ∧ thread_pool s1 = [JThread stop LoopTop]
          ∧ terminated s1 = None
          ∧ job_list s1 = []
          ∧ dispatched s1 = dispatched s ++ jl
          ∧ executed s1 = executed s ++ jl
          ∧ world s1 = run_jobs jl (world s)
          ∧ (join_callers s1 = join_callers s
             ∨ join_callers s1 = notify_all_join (join_callers s)).
Proof.
  induction jl as [|[key job] rest IH]; intros s Htp Hterm Hjl Hret.
  - exists s. simpl. rewrite !app_nil_r. repeat split; try done. by left.
  - apply Forall_cons in Hret as [Hjob Hrest].
    destruct (Hjob (world s)) as [w' Hget]. simpl in Hget.
    set (t := JThread stop LoopTop) in *.
    set (sA := loop_head 0 t s).
    assert (step (WorkerStep 0) s = Some sA) as Hstep1.
    { unfold step. rewrite Hterm. unfold JobDispatcherThread.
      by rewrite Htp. }
    assert (thread_pool sA = [JThread stop (Running key job)]
            ∧ terminated sA = None ∧ job_list sA = rest
            ∧ dispatched sA = dispatched s ++ [(key, job)]
            ∧ executed sA = executed s ∧ world sA = world s
            ∧ join_callers sA = join_callers s)
      as (HtpA & HtermA & HjlA & HdA & HeA & HwA & HjcA).
    { unfold sA, loop_head. rewrite Hjl. simpl. by rewrite Htp. }
    set (sB := run_job 0 key job sA).
    assert (step (WorkerStep 0) sA = Some sB) as Hstep2.
    { unfold step. rewrite HtermA. unfold JobDispatcherThread.
      by rewrite HtpA. }
    assert (thread_pool sB = [JThread stop (Finishing key)]
            ∧ terminated sB = None ∧ job_list sB = rest
            ∧ dispatched sB = dispatched s ++ [(key, job)]
            ∧ executed sB = executed s ++ [(key, job)] ∧ world sB = w'
            ∧ join_callers sB = join_callers s)
      as (HtpB & HtermB & HjlB & HdB & HeB & HwB & HjcB).
    { unfold sB, run_job. rewrite HwA, Hget. simpl.
      by rewrite HtpA, HeA. }
    set (sC := finish_job 0 key sB).
    assert (step (WorkerStep 0) sB = Some sC) as Hstep3.
    { unfold step. rewrite HtermB. unfold JobDispatcherThread.
      by rewrite HtpB. }
    assert (thread_pool sC = [JThread stop LoopTop]
            ∧ terminated sC = None ∧ job_list sC = rest
            ∧ dispatched sC = dispatched s ++ [(key, job)]
            ∧ executed sC = executed s ++ [(key, job)] ∧ world sC = w'
            ∧ (join_callers sC = join_callers s
               ∨ join_callers sC = notify_all_join (join_callers s)))
      as (HtpC & HtermC & HjlC & HdC & HeC & HwC & HjcC).
    { unfold sC, finish_job. simpl. rewrite HtpB, HjcB. simpl.
      repeat split; try done.
      destruct (decide (size_decr _ = 0%N)); [|by left].
      destruct (contains _ key); [by left|by right]. }
    destruct (IH sC HtpC HtermC HjlC Hrest)
      as (s1 & Hrun & Htp1 & Hterm1 & Hjl1 & Hd1 & He1 & Hw1 & Hjc1).
    exists s1. split.
    { replace (3 * length ((key, job) :: rest))
        with (3 + 3 * length rest) by (simpl; lia).
      rewrite replicate_add, run_app.
      change (replicate 3 (WorkerStep 0))
        with [WorkerStep (K:=K) (W:=W) (E:=E) 0; WorkerStep 0; WorkerStep 0].
      cbn [run]. rewrite Hstep1. cbn [mbind option_bind].
      rewrite Hstep2. cbn [mbind option_bind].
      rewrite Hstep3. cbn [mbind option_bind]. exact Hrun. }
    split; [done|]. split; [done|]. split; [done|].
    split; [by rewrite Hd1, HdC, <- app_assoc|].
    split; [by rewrite He1, HeC, <- app_assoc|].
    split.
    { rewrite Hw1, HwC. unfold run_jobs. simpl. by rewrite Hget. }
    destruct Hjc1 as [->| ->].
    + done.
    + right. destruct HjcC as [->| ->]; [done|apply notify_all_join_twice].
Qed.

(** X10 — Destruction of a single-worker pool.  With stop requested while
    the worker stands at the head of its loop and all queued jobs return
    normally, the worker runs every queued job, in the order of the job
    store, and then leaves its loop: the destruction does not hang and does
    not drop a job. *)
Theorem single_worker_drains_on_stop s :
  thread_pool s = [JThread true LoopTop] →
  terminated s = None →
  Forall (λ e, returns_normally e.2) (job_list s) →
  ∃ s', run (replicate (3 * length (job_list s) + 1) (WorkerStep 0)) s
        = Some s'
        ∧ thread_pool s' = [JThread true Exited]
        ∧ job_list s' = []
        ∧ executed s' = executed s ++ job_list s
        ∧ world s' = run_jobs (job_list s) (world s).
Proof.
  intros Htp Hterm Hret.
  destruct (single_worker_works_off true (job_list s) s Htp Hterm eq_refl Hret)
    as (s1 & Hrun & Htp1 & Hterm1 & Hjl1 & Hd1 & He1 & Hw1 & _).
  rewrite replicate_add, run_app, Hrun. simpl.
  unfold step. rewrite Hterm1. unfold JobDispatcherThread. rewrite Htp1.
  simpl. unfold loop_head. rewrite Hjl1. eexists. split; [done|].
  simpl. rewrite Htp1. simpl. unfold wait_for_job. simpl. by rewrite Hjl1.
Qed.

(** X11 — [Join] returns in a single-worker pool.  From a reachable state
    in which the worker stands at the head of its loop, all queued jobs
    return normally and a caller is blocked in [Join(ts...)], the worker's
    steps run every queued job in order, leave the job store and both maps
    empty and notify the caller, whose next step returns from [Join]. *)
Theorem single_worker_Join_returns s j ts b :
  reachable s →
  thread_pool s = [JThread false LoopTop] →
  terminated s = None →
  Forall (λ e, returns_normally e.2) (job_list s) →
  join_callers s !! j = Some (Joiner ts (JoinBlocked b)) →
  ∃ s', run (replicate (3 * length (job_list s) + 1) (WorkerStep 0)
             ++ [JoinerStep j]) s
        = Some s'
        ∧ join_callers s' !! j = Some (Joiner ts JoinReturned)
        ∧ executed s' = executed s ++ job_list s
        ∧ job_list s' = []
        ∧ pending_job_count_map s' = ∅
        ∧ in_progress_job_count_map s' = ∅.
Proof.
  intros Hs Htp Hterm Hret Hj.
  destruct (single_worker_works_off false (job_list s) s Htp Hterm eq_refl Hret)
    as (s1 & Hrun & Htp1 & Hterm1 & Hjl1 & Hd1 & He1 & Hw1 & Hjc1).
  assert (run (replicate (3 * length (job_list s) + 1) (WorkerStep 0)) s
          = Some (loop_head 0 (JThread false LoopTop) s1)) as Hrun2.
  { rewrite replicate_add, run_app, Hrun. simpl.
    unfold step. rewrite Hterm1. unfold JobDispatcherThread.
    by rewrite Htp1. }
  pose proof (reachable_run _ _ _ Hs Hrun2) as Hs2.
  set (s2 := loop_head 0 (JThread false LoopTop) s1) in *.
  assert (job_list s2 = [] ∧ thread_pool s2 = [JThread false (Waiting false)]
          ∧ join_callers s2 = notify_all_join (join_callers s1)
          ∧ executed s2 = executed s1 ∧ terminated s2 = None) as
    (Hjl2 & Htp2 & Hjc2 & He2 & Hterm2).
  { unfold s2, loop_head. rewrite Hjl1. simpl. rewrite Htp1. simpl.
    unfold wait_for_job. simpl. by rewrite Hjl1. }
  assert (join_callers s2 !! j = Some (Joiner ts (JoinBlocked true))) as Hj2.
  { rewrite Hjc2.
    assert (notify_all_join (join_callers s1)
            = notify_all_join (join_callers s)) as ->.
    { destruct Hjc1 as [->| ->]; [done|apply notify_all_join_twice]. }
    unfold notify_all_join. by rewrite list_lookup_fmap, Hj. }
  assert (pending_job_count_map s2 = ∅ ∧ in_progress_job_count_map s2 = ∅)
    as [Hp2 Hip2].
  { destruct (reachable_accounted s2 Hs2) as [Hp Hip _ _]. split.
    - apply map_eq. intros k. by rewrite Hp, Hjl2, lookup_empty.
    - apply map_eq. intros k. by rewrite Hip, Htp2, lookup_empty. }
  assert (Join_predicate ts s2 = true) as Hpred.
  { unfold Join_predicate, Ready, map_empty.
    rewrite Hjl2, Hp2, Hip2. destruct ts as [|t0 ts]; [done|]. simpl.
    unfold contains. rewrite !lookup_empty. simpl.
    assert (forallb (λ k : K, negb match (∅ : gmap K N) !! k with
                                   | Some _ => true
                                   | None => false
                                   end) ts = true) as ->; [|done].
    apply forallb_forall. intros k _. by rewrite lookup_empty. }
  rewrite run_app, Hrun2. simpl. unfold step. rewrite Hterm2.
  unfold Join_resume. rewrite Hj2. unfold join_wait. rewrite Hpred.
  eexists. split; [done|]. simpl.
  split; [apply list_lookup_insert_eq; by eapply lookup_lt_Some|].
  split; [by rewrite He2|]. done.
Qed.

Lemma Join_predicate_ext ts s s' :
  job_list s' = job_list s →
  pending_job_count_map s' = pending_job_count_map s →
  in_progress_job_count_map s' = in_progress_job_count_map s →
  Join_predicate ts s' = Join_predicate ts s.
Proof.
  intros Hjl Hp Hip. unfold Join_predicate, Ready. by rewrite Hjl, Hp, Hip.
Qed.

Lemma Join_predicate_true ts s :
  Join_predicate ts s = true ↔
  job_list s = []
  ∧ match ts with
    | [] => pending_job_count_map s = ∅ ∧ in_progress_job_count_map s = ∅
    | _ :: _ => ∀ k, k ∈ ts →
                  pending_job_count_map s !! k = None
                  ∧ in_progress_job_count_map s !! k = None
    end.
Proof.
  destruct ts as [|t0 ts]; simpl.
  - unfold map_empty. rewrite !andb_true_iff, !bool_decide_eq_true.
    rewrite std_empty_true. tauto.
  - apply Ready_keys.
Qed.

Lemma no_sleeper_ext s s' :
  no_sleeper s →
  job_list s' = job_list s →
  pending_job_count_map s' = pending_job_count_map s →
  in_progress_job_count_map s' = in_progress_job_count_map s →
  join_callers s' = join_callers s →
  no_sleeper s'.
Proof.
  intros Hns Hjl Hp Hip Hjc j c Hj Hb. rewrite Hjc in Hj.
  rewrite (Join_predicate_ext _ s s' Hjl Hp Hip). exact (Hns j c Hj Hb).
Qed.

Lemma no_sleeper_notified s :
  no_sleeper (set_join_callers (notify_all_join (join_callers s)) s).
Proof.
  intros j c Hj Hb. simpl in Hj. unfold notify_all_join in Hj.
  rewrite list_lookup_fmap in Hj.
  destruct (join_callers s !! j) as [[ts [b|]]|]; simpl in Hj;
    try discriminate Hj; injection Hj as <-; done.
Qed.

Lemma no_sleeper_finish_job i key s :
  no_sleeper s → no_sleeper (finish_job i key s).
Proof.
  intros Hns j c Hj Hb. unfold finish_job in *. simpl in Hj.
  destruct (decide (size_decr (at_key (in_progress_job_count_map s) key)
                    = 0%N)) as [Hz|Hnz].
  - destruct (contains (pending_job_count_map s) key) eqn:Hcon.
    + specialize (Hns j c Hj Hb).
      apply not_true_is_false. intros Hpred.
      apply Join_predicate_true in Hpred as [Hjl Hmaps].
      simpl in Hjl, Hmaps. unfold contains in Hcon.
      assert (Join_predicate (join_keys c) s = true) as Htrue; [|congruence].
      apply Join_predicate_true. split; [done|].
      destruct (join_keys c) as [|t0 ts].
      * destruct Hmaps as [Hp _]. rewrite Hp, lookup_empty in Hcon. done.
      * intros k Hk. destruct (Hmaps k Hk) as [Hpk Hipk]. split; [done|].
        destruct (decide (k = key)) as [->|Hne].
        -- by rewrite Hpk in Hcon.
        -- by rewrite lookup_delete_ne in Hipk.
    + unfold notify_all_join in Hj. rewrite list_lookup_fmap in Hj.
      destruct (join_callers s !! j) as [[ts [b|]]|]; simpl in Hj;
        try discriminate Hj; injection Hj as <-; done.
  - specialize (Hns j c Hj Hb).
    apply not_true_is_false. intros Hpred.
    apply Join_predicate_true in Hpred as [Hjl Hmaps].
    simpl in Hjl, Hmaps.
    assert (Join_predicate (join_keys c) s = true) as Htrue; [|congruence].
    apply Join_predicate_true. split; [done|].
    destruct (join_keys c) as [|t0 ts].
    + destruct Hmaps as [_ Hip].
      assert (<[key := size_decr (at_key (in_progress_job_count_map s) key)]>
                (in_progress_job_count_map s) !! key = None) as Hk
        by (by rewrite Hip, lookup_empty).
      by rewrite lookup_insert_eq in Hk.
    + intros k Hk. destruct (Hmaps k Hk) as [Hpk Hipk]. split; [done|].
      destruct (decide (k = key)) as [->|Hne].
      * by rewrite lookup_insert_eq in Hipk.
      * by rewrite lookup_insert_ne in Hipk.
Qed.

(** X17 — Where a wake-up can be lost.  Say that nobody sleeps over a
    true predicate when every caller blocked in [Join] without a
    notification has a false predicate.  Every step keeps this, except a
    call of [Cancel] and a worker's taking of an entry from the job store:
    submissions, calls of [Join], the destructor, and all other steps of
    the workers (going idle, running a job, accounting for its end) never
    leave a caller asleep over a predicate that holds. *)
Theorem wakeup_lost_only_by_Cancel_or_take l s s' :
  step l s = Some s' →
  is_cancel l = false →
  takes l s = false →
  no_sleeper s →
  no_sleeper s'.
Proof.
  unfold step. destruct (terminated s); [done|].
  assert (∀ key (job : future W E) wake,
            submit key job wake s = Some s' → no_sleeper s') as Hsubmit.
  { intros key job wake Hsub j c _ _.
    apply submit_order in Hsub as [_ Hjl].
    apply Join_predicate_nonempty. rewrite Hjl. by destruct (job_list s). }
  destruct l as [key func wake|key cb func wake|R key cb func wake|ts|ts|
                 |i|j|i|j|i| |i]; simpl; intros Hstep Hc Htake Hns; try done.
  - by eapply Hsubmit.
  - by eapply Hsubmit.
  - by eapply Hsubmit.
  - injection Hstep as <-. intros j c Hj Hb. simpl in Hj.
    rewrite (Join_predicate_ext _ s) by done.
    apply lookup_app_Some in Hj as [Hj|[_ Hj]]; [exact (Hns j c Hj Hb)|].
    destruct (j - length (join_callers s)) as [|n]; [|done].
    injection Hj as <-. simpl in *. unfold join_wait in Hb.
    by destruct (Join_predicate ts s).
  - injection Hstep as <-. by apply (no_sleeper_ext s).
  - unfold JobDispatcherThread in Hstep.
    destruct (thread_pool s !! i) as [t|] eqn:Hi; [simpl in Hstep|done].
    destruct (at_point t) as [|[]|key job|key|] eqn:Hat;
      try discriminate Hstep; injection Hstep as <-.
    + unfold loop_head. destruct (job_list s) as [|[key job] rest] eqn:Hjl;
        [|done].
      intros j c Hj Hb. simpl in Hj. unfold notify_all_join in Hj.
      rewrite list_lookup_fmap in Hj.
      destruct (join_callers s !! j) as [[ts [b|]]|]; simpl in Hj;
        try discriminate Hj; injection Hj as <-; done.
    + by apply (no_sleeper_ext s).
    + unfold run_job. destruct (get job (world s)) as [[[]|e] w'];
        by apply (no_sleeper_ext s).
    + by apply no_sleeper_finish_job.
  - unfold Join_resume in Hstep.
    destruct (join_callers s !! j) as [[ts [[]|]]|] eqn:Hj0; try done.
    injection Hstep as <-. intros j' c Hj Hb. simpl in Hj.
    rewrite (Join_predicate_ext _ s) by done.
    destruct (decide (j' = j)) as [->|Hne].
    + rewrite list_lookup_insert_eq in Hj by (by eapply lookup_lt_Some).
      injection Hj as <-. simpl in *. unfold join_wait in Hb.
      by destruct (Join_predicate ts s).
    + rewrite list_lookup_insert_ne in Hj by done.
      exact (Hns j' c Hj Hb).
  - unfold spurious_worker in Hstep.
    destruct (thread_pool s !! i) as [t|]; [simpl in Hstep|done].
    destruct (blocked t); [|done]. injection Hstep as <-.
    by apply (no_sleeper_ext s).
  - unfold spurious_joiner in Hstep.
    destruct (join_callers s !! j) as [c0|] eqn:Hj0; [simpl in Hstep|done].
    destruct (join_at c0) as [[]|] eqn:Hat0; try done.
    injection Hstep as <-. intros j' c Hj Hb. simpl in Hj.
    rewrite (Join_predicate_ext _ s) by done.
    destruct (decide (j' = j)) as [->|Hne].
    + rewrite list_lookup_insert_eq in Hj by (by eapply lookup_lt_Some).
      injection Hj as <-. unfold wake_joiner in Hb. by rewrite Hat0 in Hb.
    + rewrite list_lookup_insert_ne in Hj by done.
      exact (Hns j' c Hj Hb).
  - apply request_stop_Some in Hstep as (t & _ & ->).
    by apply (no_sleeper_ext s).
  - apply destructor_notify_Some in Hstep as ->.
    by apply (no_sleeper_ext s).
  - apply wait_raced_Some in Hstep as (s1 & Hstep & -> & Hjl & _).
    apply (no_sleeper_ext s1); try done.
    unfold JobDispatcherThread in Hstep.
    destruct (thread_pool s !! i) as [t|] eqn:Hi; [simpl in Hstep|done].
    destruct (at_point t) as [|[]|key job|key|] eqn:Hat;
      try discriminate Hstep; injection Hstep as <-.
    + unfold loop_head. rewrite Hjl.
      intros j c Hj Hb. simpl in Hj. unfold notify_all_join in Hj.
      rewrite list_lookup_fmap in Hj.
      destruct (join_callers s !! j) as [[ts [b|]]|]; simpl in Hj;
        try discriminate Hj; injection Hj as <-; done.
    + by apply (no_sleeper_ext s).
    + unfold run_job. destruct (get job (world s)) as [[[]|e] w'];
        by apply (no_sleeper_ext s).
    + by apply no_sleeper_finish_job.
Qed.

(** X16 — A [func] that throws.  When the job of
    [AddWithCallback(key, callback, func)] runs and [func] throws, the
    callback is not called: the only call recorded is that of [func], and
    the exception that ends the process is the one [func] threw. *)
Theorem callback_skipped_when_func_throws (R : Type) key
    (callback : R → callable W E unit) (func : callable W E R)
    i (t : @Keyed.jthread K (W * list (invocation R)) E)
    (s : @Keyed.state K _ _ (W * list (invocation R)) E)
    (w w1 : W) (tr : list (invocation R)) (e : E) :
  terminated s = None →
  thread_pool s !! i = Some t →
  at_point t
  = Running key
      (async_deferred
         (job_AddWithCallback (traced_callback callback) (traced_func func))) →
  world s = (w, tr) →
  func w = (Thrown e, w1) →
  ∃ after, step (WorkerStep i) s = Some after
           ∧ world after = (w1, tr ++ [CalledFunc])
           ∧ terminated after = Some e.
Proof.
  intros Hterm Hi Hat Hw Hfunc. eexists. split.
  { unfold step. rewrite Hterm. unfold JobDispatcherThread.
    rewrite Hi. simpl. by rewrite Hat. }
  unfold run_job. rewrite Hw.
  unfold get, async_deferred, job_AddWithCallback, invoke.
  unfold mbind, callable_bind, traced_func. simpl. by rewrite Hfunc.
Qed.

Lemma Cancel_store_is_sublist ts s :
  sublist (job_list (Cancel ts s)) (job_list s).
Proof.
  destruct ts as [|t0 ts]; simpl; [apply sublist_nil_l|apply sublist_filter].
Qed.

Lemma run_sublist ls :
  ∀ s0 s subs,
    run ls s0 = Some s →
    sublist (dispatched s0 ++ job_list s0) subs →
    sublist (dispatched s ++ job_list s) (subs ++ submissions ls).
Proof.
  induction ls as [|l ls IH]; intros s0 s subs; simpl.
  - intros [= <-] Hsub. by rewrite app_nil_r.
  - destruct (step l s0) as [s1|] eqn:Hl; [simpl|done].
    intros Hrun Hsub. unfold submissions. simpl.
    destruct (step_store l s0 s1 Hl)
      as [(e & -> & Hjl1 & Hd1)|[(-> & e & Hjl1 & Hd1)
          |[(-> & ts & Hjl1 & Hd1)|(-> & Hjl1 & Hd1)]]].
    + replace (subs ++ e :: omap submission ls)
        with ((subs ++ [e]) ++ submissions ls)
        by (by rewrite <- app_assoc).
      apply (IH s1 s _ Hrun). rewrite Hjl1, Hd1, app_assoc.
      by apply sublist_app.
    + apply (IH s1 s _ Hrun). rewrite Hd1, <- app_assoc. simpl.
      by rewrite <- Hjl1.
    + apply (IH s1 s _ Hrun). rewrite Hd1, Hjl1.
      etrans; [|apply Hsub].
      apply sublist_app; [done|apply Cancel_store_is_sublist].
    + apply (IH s1 s _ Hrun). by rewrite Hd1, Hjl1.
Qed.

(** X18 — Nothing but submissions, nothing twice, nothing out of order.
    In every execution, with or without [Cancel], the entries taken by the
    workers followed by the entries still queued are a subsequence of the
    submissions in call order. *)
Theorem taken_and_queued_sublist_of_submissions
    (number_of_threads : N) (w : W) ls s :
  run ls (AsyncJobQueue number_of_threads w) = Some s →
  sublist (dispatched s ++ job_list s) (submissions ls).
Proof.
  intros Hrun.
  apply (run_sublist ls (AsyncJobQueue number_of_threads w) s [] Hrun).
  apply sublist_nil_l.
Qed.

Lemma in_flight_insert_perm tp i t t' :
  tp !! i = Some t →
  in_flight (<[i := t']> tp) ++ option_list (running t)
  ≡ₚ in_flight tp ++ option_list (running t').
Proof.
  intros Hi. unfold in_flight.
  rewrite insert_take_drop by (by eapply lookup_lt_Some).
  rewrite <- (take_drop_middle tp i t Hi) at 3.
  rewrite !omap_app. simpl.
  destruct (running t) as [x|], (running t') as [y|]; simpl;
    rewrite ?app_nil_r, <- ?app_assoc; apply Permutation_app_head; simpl.
  - rewrite <- !Permutation_cons_append. apply perm_swap.
  - by rewrite <- Permutation_cons_append.
  - by rewrite <- Permutation_cons_append.
  - done.
Qed.

Lemma in_flight_set_control_perm tp i t c :
  tp !! i = Some t →
  in_flight (set_control i c tp) ++ option_list (running t)
  ≡ₚ in_flight tp ++ option_list (running (JThread (stop_requested t) c)).
Proof.
  intros Hi. unfold set_control. rewrite Hi. by apply in_flight_insert_perm.
Qed.

Lemma run_once_JobDispatcherThread i s s' :
  run_once s → terminated s = None →
  JobDispatcherThread i s = Some s' → run_once s'.
Proof.
  intros Hinv Hterm. specialize (Hinv Hterm).
  unfold JobDispatcherThread.
  destruct (thread_pool s !! i) as [t|] eqn:Hi; [simpl|done].
  destruct (at_point t) as [|[]|key job|key|] eqn:Hat; intros [= <-] Hterm'.
  - unfold loop_head. destruct (job_list s) as [|[key job] rest]; simpl.
    + pose proof (in_flight_set_control_perm _ i t (wait_for_job t s) Hi)
        as Hperm.
      unfold running in Hperm at 1 2. simpl in Hperm. rewrite Hat in Hperm.
      assert (option_list
                match wait_for_job t s with
                | Running key job => Some (key, job)
                | _ => None
                end = []) as Hnone.
      { unfold wait_for_job.
        by repeat match goal with |- context [if ?b then _ else _] =>
                    destruct b end. }
      rewrite Hnone in Hperm. simpl in Hperm. rewrite !app_nil_r in Hperm.
      by rewrite Hperm.
    + pose proof (in_flight_set_control_perm _ i t (Running key job) Hi)
        as Hperm.
      unfold running in Hperm at 1 2. simpl in Hperm. rewrite Hat in Hperm.
      simpl in Hperm. rewrite app_nil_r in Hperm.
      by rewrite Hperm, app_assoc, Hinv.
  - simpl.
    pose proof (in_flight_set_control_perm _ i t (wait_for_job t s) Hi)
      as Hperm.
    unfold running in Hperm at 1 2. simpl in Hperm. rewrite Hat in Hperm.
    assert (option_list
              match wait_for_job t s with
              | Running key job => Some (key, job)
              | _ => None
              end = []) as Hnone.
    { unfold wait_for_job.
      by repeat match goal with |- context [if ?b then _ else _] =>
                  destruct b end. }
    rewrite Hnone in Hperm. simpl in Hperm. rewrite !app_nil_r in Hperm.
    by rewrite Hperm.
  - unfold run_job in *.
    destruct (get job (world s)) as [[[]|e] w']; simpl in *; [|done].
    pose proof (in_flight_set_control_perm _ i t (Finishing key) Hi) as Hperm.
    unfold running in Hperm at 1 2. simpl in Hperm. rewrite Hat in Hperm.
    simpl in Hperm. rewrite app_nil_r in Hperm.
    by rewrite <- app_assoc, (Permutation_app_comm [(key, job)]), Hperm.
  - simpl.
    pose proof (in_flight_set_control_perm _ i t LoopTop Hi) as Hperm.
    unfold running in Hperm at 1 2. simpl in Hperm. rewrite Hat in Hperm.
    simpl in Hperm. rewrite !app_nil_r in Hperm. by rewrite Hperm.
Qed.

Lemma run_once_frame s s' :
  run_once s →
  in_flight (thread_pool s') = in_flight (thread_pool s) →
  executed s' = executed s → dispatched s' = dispatched s →
  terminated s' = terminated s →
  run_once s'.
Proof.
  intros Hinv Hfl He Hd Ht. unfold run_once. by rewrite Hfl, He, Hd, Ht.
Qed.

Lemma run_once_step l s s' : run_once s → step l s = Some s' → run_once s'.
Proof.
  intros Hs. unfold step. destruct (terminated s) eqn:Hterm; [done|].
  assert (∀ key (job : future W E) wake,
            submit key job wake s = Some s' → run_once s') as Hsubmit.
  { intros key job wake. unfold submit.
    destruct (emplace_back (key, job) (job_list s)); [simpl|done].
    destruct (notify_one wake (thread_pool s)) as [tp'|] eqn:Htp; [|done].
    intros [= <-] _. simpl.
    destruct (in_flight_notify_one _ _ _ Htp) as [-> _]. by apply Hs. }
  destruct l as [key func wake|key cb func wake|R key cb func wake|ts|ts|
                 |i|j|i|j|i| |i]; simpl.
  - apply Hsubmit.
  - apply Hsubmit.
  - apply Hsubmit.
  - intros [= <-] _. by apply Hs.
  - intros [= <-] _. by apply Hs.
  - intros [= <-] _. simpl. unfold notify_all_job.
    rewrite in_flight_fmap by apply running_wake_worker.
    rewrite in_flight_fmap by done. by apply Hs.
  - by apply run_once_JobDispatcherThread.
  - unfold Join_resume.
    destruct (join_callers s !! j) as [[ts [[]|]]|]; try done.
    intros [= <-] _. by apply Hs.
  - unfold spurious_worker.
    destruct (thread_pool s !! i) as [t|] eqn:Hi; [simpl|done].
    destruct (blocked t); [|done]. intros [= <-] _. simpl.
    rewrite (in_flight_insert_same _ i t _ Hi (running_wake_worker t)).
    by apply Hs.
  - unfold spurious_joiner.
    destruct (join_callers s !! j) as [c|]; [simpl|done].
    destruct (join_at c) as [[]|]; try done. intros [= <-] _. by apply Hs.
  - intros (t & Hi & ->)%request_stop_Some.
    apply (run_once_frame s); try done.
    by apply (in_flight_insert_same _ i t).
  - intros ->%destructor_notify_Some.
    apply (run_once_frame s); try done.
    apply in_flight_fmap, running_wake_worker.
  - intros (s1 & Hstep & -> & _ & _ & _ & Hi)%wait_raced_Some.
    apply (run_once_JobDispatcherThread i s s1 Hs Hterm) in Hstep.
    apply (run_once_frame (destroy s1)); try done.
    + apply (run_once_frame s1); try done.
      unfold destroy, notify_all_job. cbn [thread_pool].
      rewrite in_flight_fmap by apply running_wake_worker.
      by rewrite in_flight_fmap.
    + by apply (in_flight_set_control _ i _ (JThread true (Waiting true))).
Qed.

(** X19 — Every job taken is run once.  In every execution, with any
    number of workers, as long as no job has thrown, the jobs that have
    been run together with the jobs taken and about to be run are, up to
    their order, exactly the entries taken from the job store: no entry is
    run twice and none is dropped after it has been taken. *)
Theorem taken_jobs_run_once (number_of_threads : N) (w : W) ls s :
  run ls (AsyncJobQueue number_of_threads w) = Some s →
  terminated s = None →
  executed s ++ in_flight (thread_pool s) ≡ₚ dispatched s.
Proof.
  intros Hrun.
  apply (run_preserves run_once ls run_once_step
           (AsyncJobQueue number_of_threads w) s); [|done].
  intros _. simpl. unfold in_flight.
  induction (N.to_nat number_of_threads) as [|n IH]; [done|apply IH].
Qed.

(** X20 — [Join] returns only over a quiescent store.  When a step makes
    a caller return from [Join(ts...)] in a reachable state, then at that
    moment the job store holds no entry at all and no worker holds a job of
    a key of [ts] (of any key, when [ts] is empty). *)
Theorem Join_returns_only_when_quiescent l s s' j ts :
  reachable s →
  step l s = Some s' →
  join_callers s' !! j = Some (Joiner ts JoinReturned) →
  join_callers s !! j ≠ Some (Joiner ts JoinReturned) →
  job_list s = []
  ∧ ∀ k, cancelled ts k → key_workers k (thread_pool s) = 0.
Proof.
  intros Hs Hstep Hj' Hj.
  apply (Join_predicate_reachable_iff ts s Hs).
  revert Hstep. unfold step. destruct (terminated s); [done|].
  assert (∀ jc, notify_all_join jc !! j = Some (Joiner ts JoinReturned) →
                jc !! j = Some (Joiner ts JoinReturned)) as Hnotify.
  { intros jc. unfold notify_all_join. rewrite list_lookup_fmap.
    destruct (jc !! j) as [[ts0 [b|]]|]; simpl; intros [=]; by subst. }
  assert (∀ key (job : future W E) wake,
            submit key job wake s = Some s' →
            Join_predicate ts s = true) as Hsubmit.
  { intros key job wake. unfold submit.
    destruct (emplace_back (key, job) (job_list s)); [simpl|done].
    destruct (notify_one wake (thread_pool s)); [|done].
    intros [= <-]. by simpl in Hj'. }
  destruct l as [key func wake|key cb func wake|R key cb func wake|ts0|ts0|
                 |i|j0|i|j0|i| |i]; simpl.
  - apply Hsubmit.
  - apply Hsubmit.
  - apply Hsubmit.
  - intros [= <-]. simpl in Hj'.
    apply lookup_app_Some in Hj' as [Hj'|[_ Hj']]; [done|].
    destruct (j - length (join_callers s)) as [|n]; [|done].
    injection Hj' as -> Hw. unfold join_wait in Hw.
    by destruct (Join_predicate ts s).
  - intros [= <-]. by simpl in Hj'.
  - intros [= <-]. by simpl in Hj'.
  - unfold JobDispatcherThread.
    destruct (thread_pool s !! i) as [t|]; [simpl|done].
    destruct (at_point t) as [|[]|key job|key|]; intros [= <-];
      simpl in Hj'; try done.
    + unfold loop_head in Hj'.
      destruct (job_list s) as [|[key job] rest]; simpl in Hj'; [|done].
      by apply Hnotify in Hj'.
    + unfold run_job in Hj'.
      by destruct (get job (world s)) as [[[]|e] w'].
    + destruct (decide (size_decr _ = 0%N)); [|done].
      destruct (contains _ key); [done|]. by apply Hnotify in Hj'.
  - unfold Join_resume.
    destruct (join_callers s !! j0) as [[ts0 [[]|]]|] eqn:Hj0; try done.
    intros [= <-]. simpl in Hj'.
    destruct (decide (j = j0)) as [->|Hne].
    + rewrite list_lookup_insert_eq in Hj' by (by eapply lookup_lt_Some).
      injection Hj' as -> Hw. unfold join_wait in Hw.
      by destruct (Join_predicate ts s).
    + by rewrite list_lookup_insert_ne in Hj'.
  - unfold spurious_worker.
    destruct (thread_pool s !! i) as [t|]; [simpl|done].
    destruct (blocked t); [|done]. intros [= <-]. by simpl in Hj'.
  - unfold spurious_joiner.
    destruct (join_callers s !! j0) as [c|] eqn:Hj0; [simpl|done].
    destruct (join_at c) as [[]|] eqn:Hat0; try done.
    intros [= <-]. simpl in Hj'.
    destruct (decide (j = j0)) as [->|Hne].
    + rewrite list_lookup_insert_eq in Hj' by (by eapply lookup_lt_Some).
      unfold wake_joiner in Hj'. by rewrite Hat0 in Hj'.
    + by rewrite list_lookup_insert_ne in Hj'.
  - intros (t & _ & ->)%request_stop_Some. by simpl in Hj'.
  - intros ->%destructor_notify_Some. by simpl in Hj'.
  - intros (s1 & Hstep & -> & Hjl & _)%wait_raced_Some.
    change (join_callers s1 !! j = Some (Joiner ts JoinReturned)) in Hj'.
    revert Hstep. unfold JobDispatcherThread.
    destruct (thread_pool s !! i) as [t|]; [simpl|done].
    destruct (at_point t) as [|[]|key job|key|]; intros [= <-];
      simpl in Hj'; try done.
    + unfold loop_head in Hj'.
      destruct (job_list s) as [|[key job] rest]; simpl in Hj'; [|done].
      by apply Hnotify in Hj'.
    + unfold run_job in Hj'.
      by destruct (get job (world s)) as [[[]|e] w'].
    + destruct (decide (size_decr _ = 0%N)); [|done].
      destruct (contains _ key); [done|]. by apply Hnotify in Hj'.
Qed.
End KeyedProperties.

(** * The queue without keys: further properties *)

Lemma sum_list_with_insert {A : Type} (f : A → nat) (l : list A) i x y :
  l !! i = Some x →
  sum_list_with f (<[i := y]> l) + f x = sum_list_with f l + f y.
Proof.
  intros Hi. rewrite insert_take_drop by (by eapply lookup_lt_Some).
  rewrite <- (take_drop_middle l i x Hi) at 3.
  rewrite !sum_list_with_app. simpl. lia.
Qed.

Lemma sum_list_with_le_length {A : Type} (f : A → nat) (l : list A) :
  (∀ x, f x ≤ 1) → sum_list_with f l ≤ length l.
Proof.
  intros Hf. induction l as [|x l IH]; simpl; [done|].
  specialize (Hf x). lia.
Qed.

Section NoKeyProperties.
Import NoKey.
Context {W E : Type}.
Local Abbreviation state := (@NoKey.state W E).
Local Abbreviation label := (@NoKey.label W E).
Local Abbreviation jthread := (@NoKey.jthread W E).
Implicit Types (s : state) (l : label) (tp : list jthread) (t : jthread).

Lemma NoKey_busy_le_1 t : busy t ≤ 1.
Proof. unfold busy. destruct (at_point t); lia. Qed.

Lemma NoKey_busy_wake_worker t : busy (wake_worker t) = busy t.
Proof.
  unfold wake_worker, busy.
  destruct (at_point t) eqn:Ht; simpl; by rewrite ?Ht.
Qed.

Lemma NoKey_busy_count_fmap (f : jthread → jthread) tp :
  (∀ t, busy (f t) = busy t) → busy_count (f <$> tp) = busy_count tp.
Proof.
  intros Hf. unfold busy_count.
  induction tp as [|t tp IH]; csimpl; [done|]. by rewrite Hf, IH.
Qed.

Lemma NoKey_busy_count_set_control tp i t c :
  tp !! i = Some t →
  busy_count (set_control i c tp) + busy t
  = busy_count tp + busy (JThread (stop_requested t) c).
Proof.
  intros Hi. unfold set_control. rewrite Hi.
  by apply sum_list_with_insert.
Qed.

Lemma NoKey_length_set_control i c tp :
  length (set_control i c tp) = length tp.
Proof.
  unfold set_control. destruct (tp !! i); [|done]. by rewrite length_insert.
Qed.

Lemma NoKey_notify_one wake tp tp' :
  notify_one wake tp = Some tp' →
  busy_count tp' = busy_count tp ∧ length tp' = length tp.
Proof.
  unfold notify_one. intros Hn.
  destruct (tp !! wake) as [t|] eqn:Hw.
  - destruct (blocked t).
    + injection Hn as <-. split; [|by rewrite length_insert].
      pose proof (sum_list_with_insert busy tp wake t (wake_worker t) Hw)
        as Hsum.
      rewrite NoKey_busy_wake_worker in Hsum. unfold busy_count. lia.
    + destruct (existsb blocked tp); [done|]. by injection Hn as <-.
  - destruct (existsb blocked tp); [done|]. by injection Hn as <-.
Qed.

Lemma NoKey_counted_submit (job : future W E) wake s s' :
  counted s → submit job wake s = Some s' → counted s'.
Proof.
  intros [Hb Hl]. unfold submit.
  destruct (emplace_back job (job_queue s)); [simpl|done].
  destruct (notify_one wake (thread_pool s)) as [tp'|] eqn:Htp; [|done].
  simpl. intros [= <-].
  destruct (NoKey_notify_one _ _ _ Htp) as [Hc Hlen].
  split; simpl; by rewrite ?Hc, ?Hlen.
Qed.

Lemma NoKey_counted_JobDispatcherThread i s s' :
  counted s → JobDispatcherThread i s = Some s' → counted s'.
Proof.
  intros [Hb Hl]. unfold JobDispatcherThread.
  destruct (thread_pool s !! i) as [t|] eqn:Hi; [simpl|done].
  pose proof (sum_list_with_le_length busy (thread_pool s) NoKey_busy_le_1)
    as Hle. fold (busy_count (thread_pool s)) in Hle.
  pose proof (sum_list_with_in t busy (thread_pool s)
                (list_elem_of_lookup_2 _ _ _ Hi)) as Hge.
  fold (busy_count (thread_pool s)) in Hge. unfold busy in Hge.
  destruct (at_point t) as [|[]|job|] eqn:Hat; intros [= <-].
  - unfold loop_head. destruct (job_queue s) as [|job rest] eqn:Hjq.
    + pose proof (NoKey_busy_count_set_control _ i t
                    (wait_for_job t (size_decr (number_of_busy_threads s)) s).1
                    Hi) as Hset.
      unfold busy in Hset at 1 2. simpl in Hset. rewrite Hat in Hset.
      assert (size_decr (number_of_busy_threads s)
              = N.of_nat (busy_count (thread_pool s) - 1)) as Hdecr.
      { rewrite Hb, size_decr_positive; lia. }
      split; simpl; [|by rewrite NoKey_length_set_control].
      unfold wait_for_job in *. rewrite Hjq in *. simpl in *.
      destruct (stop_requested t); simpl in *; rewrite Hdecr; lia.
    + pose proof (NoKey_busy_count_set_control _ i t (Running job) Hi) as Hset.
      unfold busy in Hset. simpl in Hset. rewrite Hat in Hset.
      split; simpl; [|by rewrite NoKey_length_set_control].
      rewrite Hb. lia.
  - pose proof (NoKey_busy_count_set_control _ i t
                  (wait_for_job t (number_of_busy_threads s) s).1 Hi) as Hset.
    unfold busy in Hset at 1 2. simpl in Hset. rewrite Hat in Hset.
    assert (busy_count (thread_pool s) < length (thread_pool s)) as Hlt.
    { unfold busy_count. rewrite <- (take_drop_middle _ i t Hi).
      rewrite sum_list_with_app, length_app. simpl.
      pose proof (sum_list_with_le_length busy (take i (thread_pool s))
                    NoKey_busy_le_1).
      pose proof (sum_list_with_le_length busy (drop (S i) (thread_pool s))
                    NoKey_busy_le_1).
      unfold busy at 2. rewrite Hat. lia. }
    split; simpl; [|by rewrite NoKey_length_set_control].
    unfold wait_for_job in *.
    destruct (stop_requested t), (std_empty (job_queue s)); simpl in *;
      rewrite ?size_incr_small by lia; lia.
  - unfold run_job. destruct (get job (world s)) as [[[]|e] w']; simpl.
    + pose proof (NoKey_busy_count_set_control _ i t LoopTop Hi) as Hset.
      unfold busy in Hset. simpl in Hset. rewrite Hat in Hset.
      split; simpl; [|by rewrite NoKey_length_set_control].
      rewrite Hb. lia.
    + by split.
Qed.

Lemma NoKey_lookup_set_control i c tp t :
  tp !! i = Some t →
  set_control i c tp !! i = Some (JThread (stop_requested t) c).
Proof.
  intros Hi. unfold set_control. rewrite Hi.
  apply list_lookup_insert_eq. by eapply lookup_lt_Some.
Qed.

(** The calls of the destructor, one by one. *)
Lemma NoKey_request_stop_Some i s s' :
  request_stop i s = Some s' →
  ∃ t, thread_pool s !! i = Some t
       ∧ s' = set_thread_pool
                (<[i := JThread true (at_point t)]> (thread_pool s)) s.
Proof.
  unfold request_stop.
  destruct (thread_pool s !! i) as [t|]; [simpl|done].
  destruct (forallb _ _); [|done]. intros [= <-]. by exists t.
Qed.

Lemma NoKey_destructor_notify_Some s s' :
  destructor_notify s = Some s' →
  s' = set_thread_pool (notify_all_job (thread_pool s)) s.
Proof.
  unfold destructor_notify. destruct (forallb _ _); [|done].
  by intros [= <-].
Qed.

(** The raced wait is the worker's step into the wait, followed by the
    destructor, except that the worker is not woken. *)
Lemma NoKey_wait_raced_Some i s s' :
  wait_raced i s = Some s' →
  ∃ s1, JobDispatcherThread i s = Some s1
        ∧ s' = miss_worker i (destroy s1)
        ∧ job_queue s = []
        ∧ job_queue s1 = []
        ∧ dispatched s1 = dispatched s
        ∧ thread_pool (destroy s1) !! i = Some (JThread true (Waiting true)).
Proof.
  unfold wait_raced, JobDispatcherThread.
  destruct (thread_pool s !! i) as [t|] eqn:Hi; [simpl|done].
  assert (∀ b, (wait_for_job t b s).1 = Waiting false → job_queue s = [])
    as Hempty.
  { intros b. unfold wait_for_job.
    by destruct (stop_requested t), (job_queue s). }
  assert (∀ s1, thread_pool s1 = set_control i (Waiting false) (thread_pool s) →
                thread_pool (destroy s1) !! i
                = Some (JThread true (Waiting true))) as Hlook.
  { intros s1 Htp. simpl. unfold notify_all_job.
    rewrite <- list_fmap_compose, list_lookup_fmap, Htp.
    by rewrite (NoKey_lookup_set_control _ _ _ t Hi). }
  destruct (at_point t) as [|[]|job|]; try done.
  - destruct (wait_for_job t (size_decr (number_of_busy_threads s)) s).1
      as [|[]| |] eqn:Hwait; try done.
    intros [= <-]. pose proof (Hempty _ Hwait) as Hjq.
    exists (loop_head i t s). split; [done|]. split; [done|].
    split; [done|].
    assert (job_queue (loop_head i t s) = []
            ∧ dispatched (loop_head i t s) = dispatched s
            ∧ thread_pool (loop_head i t s)
              = set_control i (Waiting false) (thread_pool s))
      as (Hq & Hd & Htp).
    { unfold loop_head. rewrite Hjq. simpl. by rewrite Hwait. }
    split; [done|]. split; [done|]. by apply Hlook.
  - destruct (wait_for_job t (number_of_busy_threads s) s).1
      as [|[]| |] eqn:Hwait; try done.
    intros [= <-]. pose proof (Hempty _ Hwait) as Hjq.
    exists (wait_resume i t s). split; [done|]. split; [done|].
    split; [done|]. split; [done|]. split; [done|].
    apply Hlook. simpl. by rewrite Hwait.
Qed.

Lemma NoKey_counted_frame s s' :
  counted s →
  busy_count (thread_pool s') = busy_count (thread_pool s) →
  length (thread_pool s') = length (thread_pool s) →
  number_of_busy_threads s' = number_of_busy_threads s →
  counted s'.
Proof.
  intros [Hb Hl] Hc Hlen Hn. split; by rewrite ?Hc, ?Hlen, ?Hn.
Qed.

Lemma NoKey_counted_destroy s : counted s → counted (destroy s).
Proof.
  intros Hs. apply (NoKey_counted_frame s); try done; simpl.
  - unfold notify_all_job.
    rewrite NoKey_busy_count_fmap by apply NoKey_busy_wake_worker.
    by rewrite NoKey_busy_count_fmap.
  - unfold notify_all_job. by rewrite !length_fmap.
Qed.

Lemma NoKey_counted_step l s s' : counted s → step l s = Some s' → counted s'.
Proof.
  intros Hs. unfold step. destruct (terminated s); [done|].
  destruct l as [func wake|cb func wake|R cb func wake| | | |i|j|i| |i].
  - by apply NoKey_counted_submit.
  - by apply NoKey_counted_submit.
  - by apply NoKey_counted_submit.
  - intros [= <-]. destruct Hs as [Hb Hl]. split; simpl.
    + unfold notify_all_job.
      by rewrite NoKey_busy_count_fmap by apply NoKey_busy_wake_worker.
    + unfold notify_all_job. by rewrite length_fmap.
  - intros [= <-]. by destruct Hs.
  - intros [= <-]. destruct Hs as [Hb Hl]. split; simpl.
    + unfold notify_all_job.
      rewrite NoKey_busy_count_fmap by apply NoKey_busy_wake_worker.
      by rewrite NoKey_busy_count_fmap.
    + unfold notify_all_job. by rewrite !length_fmap.
  - by apply NoKey_counted_JobDispatcherThread.
  - unfold Join_resume.
    destruct (join_callers s !! j) as [[[]|]|]; try done.
    intros [= <-]. by destruct Hs.
  - intros (t & Hi & ->)%NoKey_request_stop_Some.
    apply (NoKey_counted_frame s); try done; simpl.
    + pose proof (sum_list_with_insert busy (thread_pool s) i t
                    (JThread true (at_point t)) Hi) as Hsum.
      unfold busy_count. unfold busy at 2 4 in Hsum. simpl in Hsum. lia.
    + apply length_insert.
  - intros ->%NoKey_destructor_notify_Some.
    apply (NoKey_counted_frame s); try done; simpl.
    + unfold notify_all_job.
      by rewrite NoKey_busy_count_fmap by apply NoKey_busy_wake_worker.
    + unfold notify_all_job. by rewrite length_fmap.
  - intros (s1 & Hstep & -> & _ & _ & _ & Hi)%NoKey_wait_raced_Some.
    apply (NoKey_counted_JobDispatcherThread i s s1 Hs) in Hstep.
    apply (NoKey_counted_frame (destroy s1)); try done.
    + by apply NoKey_counted_destroy.
    + pose proof (NoKey_busy_count_set_control _ i _ (Waiting false) Hi)
        as Hset.
      change (busy_count (thread_pool (miss_worker i (destroy s1))) + 0
              = busy_count (thread_pool (destroy s1)) + 0) in Hset.
      lia.
    + apply NoKey_length_set_control.
Qed.

Lemma NoKey_run_preserves (P : state → Prop) ls :
  (∀ l s s', P s → step l s = Some s' → P s') →
  ∀ s s', P s → run ls s = Some s' → P s'.
Proof.
  intros Hstep. induction ls as [|l ls IH]; intros s s' Hs; simpl.
  - by intros [= <-].
  - destruct (step l s) as [s1|] eqn:Hl; [simpl|done].
    apply IH. by eapply Hstep.
Qed.

Lemma NoKey_reachable_counted s : reachable s → counted s.
Proof.
  intros (n & w & ls & Hn & Hrun).
  eapply (NoKey_run_preserves counted); [apply NoKey_counted_step| |apply Hrun].
  split; simpl.
  - assert (∀ m, busy_count
                   (replicate m (JThread (W:=W) (E:=E) false LoopTop)) = m)
      as Hrep.
    { induction m as [|m IH]; [done|]. unfold busy_count in *. simpl.
      by rewrite IH. }
    rewrite Hrep. lia.
  - rewrite length_replicate. lia.
Qed.

(** X12 — The busy counter.  In every reachable state of the no-key queue
    [number_of_busy_threads] is the number of workers that are neither
    inside the wait nor out of their loop (the counter never wraps); so the
    predicate of [Join()] holds exactly when every worker waits or has left,
    and then no worker holds a job. *)
Theorem NoKey_busy_counter s :
  reachable s →
  number_of_busy_threads s = N.of_nat (busy_count (thread_pool s))
  ∧ (Join_predicate s = true ↔ Forall (λ t, busy t = 0) (thread_pool s)).
Proof.
  intros Hs. destruct (NoKey_reachable_counted s Hs) as [Hb _].
  split; [done|]. unfold Join_predicate. rewrite bool_decide_eq_true, Hb.
  unfold busy_count. generalize (thread_pool s). intros tp.
  induction tp as [|t tp IH]; simpl.
  - split; [by constructor|done].
  - rewrite Forall_cons. split.
    + intros Hz. assert (busy t = 0 ∧ sum_list_with busy tp = 0) as [? Hr]
        by lia. split; [done|]. apply IH. lia.
    + intros [Ht Hr]. apply IH in Hr. lia.
Qed.

Lemma NoKey_submit_store (job : future W E) wake s s' :
  submit job wake s = Some s' →
  job_queue s' = job_queue s ++ [job] ∧ dispatched s' = dispatched s
  ∧ executed s' = executed s ∧ world s' = world s
  ∧ number_of_busy_threads s' = number_of_busy_threads s
  ∧ join_callers s' = join_callers s.
Proof.
  unfold submit.
  destruct (emplace_back job (job_queue s)) as [jq|] eqn:Hjq; [simpl|done].
  destruct (notify_one wake (thread_pool s)); [|done].
  intros [= <-]. simpl. by apply emplace_back_Some in Hjq as [-> _].
Qed.

(** What a step does to the queue and to the history of the jobs taken. *)
Lemma NoKey_step_store l s s' :
  step l s = Some s' →
  (∃ job, submission l = Some job
          ∧ job_queue s' = job_queue s ++ [job]
          ∧ dispatched s' = dispatched s)
  ∨ (submission l = None ∧ is_cancel l = false
     ∧ ∃ job, job_queue s = job :: job_queue s'
              ∧ dispatched s' = dispatched s ++ [job])
  ∨ (l = CallCancel ∧ job_queue s' = [] ∧ dispatched s' = dispatched s)
  ∨ (submission l = None ∧ is_cancel l = false
     ∧ job_queue s' = job_queue s ∧ dispatched s' = dispatched s).
Proof.
  unfold step. destruct (terminated s); [done|].
  destruct l as [func wake|cb func wake|R cb func wake| | | |i|j|i| |i];
    simpl; intros Hstep.
  - left. eexists. split; [done|].
    by destruct (NoKey_submit_store _ _ _ _ Hstep) as (-> & -> & _).
  - left. eexists. split; [done|].
    by destruct (NoKey_submit_store _ _ _ _ Hstep) as (-> & -> & _).
  - left. eexists. split; [done|].
    by destruct (NoKey_submit_store _ _ _ _ Hstep) as (-> & -> & _).
  - right. right. right. by injection Hstep as <-.
  - right. right. left. by injection Hstep as <-.
  - right. right. right. by injection Hstep as <-.
  - unfold JobDispatcherThread in Hstep.
    destruct (thread_pool s !! i) as [t|]; [simpl in Hstep|done].
    destruct (at_point t) as [|[]|job|]; try discriminate Hstep;
      injection Hstep as <-; try (by right; right; right).
    + unfold loop_head. destruct (job_queue s) as [|job rest]; simpl.
      * by right; right; right.
      * right. left. split; [done|]. split; [done|]. by exists job.
    + unfold run_job. destruct (get job (world s)) as [[[]|e] w'];
        by right; right; right.
  - unfold Join_resume in Hstep.
    destruct (join_callers s !! j) as [[[]|]|]; try done.
    right. right. right. by injection Hstep as <-.
  - right. right. right.
    by apply NoKey_request_stop_Some in Hstep as (t & _ & ->).
  - right. right. right.
    by apply NoKey_destructor_notify_Some in Hstep as ->.
  - right. right. right.
    apply NoKey_wait_raced_Some in Hstep
      as (s1 & _ & -> & Hjq & Hjq1 & Hd & _).
    split; [done|]. split; [done|]. split; [|exact Hd].
    change (job_queue s1 = job_queue s). congruence.
Qed.

Lemma NoKey_run_order ls :
  ∀ s0 s,
    run ls s0 = Some s →
    forallb (λ l, negb (is_cancel l)) ls = true →
    dispatched s ++ job_queue s
    = (dispatched s0 ++ job_queue s0) ++ submissions ls.
Proof.
  induction ls as [|l ls IH]; intros s0 s; simpl.
  - intros [= <-] _. by rewrite app_nil_r.
  - destruct (step l s0) as [s1|] eqn:Hl; [simpl|done].
    intros Hrun [Hc Hcs]%andb_true_iff. apply negb_true_iff in Hc.
    rewrite (IH s1 s Hrun Hcs). unfold submissions. simpl.
    destruct (NoKey_step_store l s0 s1 Hl)
      as [(job & -> & -> & ->)|[(-> & _ & job & -> & ->)
          |[(-> & _)|(-> & _ & -> & ->)]]]; try done.
    + by rewrite <- !app_assoc.
    + by rewrite <- !app_assoc.
Qed.

(** X13 — FIFO dispatch without keys.  In an execution of the no-key
    queue that never cancels, the jobs taken by the workers, in the order in
    which they were taken, followed by the jobs still queued, are the
    submissions in call order. *)
Theorem NoKey_fifo_dispatch (number_of_threads : N) (w : W) ls s :
  run ls (AsyncJobQueue number_of_threads w) = Some s →
  forallb (λ l, negb (is_cancel l)) ls = true →
  dispatched s ++ job_queue s = submissions ls.
Proof.
  intros Hrun Hls. by rewrite (NoKey_run_order ls _ s Hrun Hls).
Qed.

(** X14 — [Cancel()] without keys.  After [Cancel()], as long as nothing
    is submitted, the queue stays empty and no worker takes a job: none of
    the jobs dropped by the call is ever dispatched. *)
Theorem NoKey_cancelled_jobs_never_dispatched s ls s' :
  run ls (Cancel s) = Some s' →
  Forall (λ l, submission l = None) ls →
  job_queue s' = [] ∧ dispatched s' = dispatched s.
Proof.
  assert (∀ ls s0 s',
            job_queue s0 = [] → run ls s0 = Some s' →
            Forall (λ l, submission l = None) ls →
            job_queue s' = [] ∧ dispatched s' = dispatched s0) as Hgen.
  { clear. induction ls as [|l ls IH]; intros s0 s' Hjq; simpl.
    - by intros [= <-] _.
    - destruct (step l s0) as [s1|] eqn:Hl; [simpl|done].
      intros Hrun [Hnone Hrest]%Forall_cons.
      destruct (NoKey_step_store l s0 s1 Hl)
        as [(job & Hsub & _)|[(_ & _ & job & Hq & _)
            |[(_ & Hq1 & Hd1)|(_ & _ & Hq1 & Hd1)]]].
      + congruence.
      + congruence.
      + rewrite <- Hd1. by apply IH.
      + rewrite <- Hd1. apply IH; [congruence|done|done]. }
  intros Hrun Hls. by apply (Hgen ls (Cancel s) s').
Qed.

(** X15 — A no-key pool without threads.  The busy counter starts at the
    number of threads, so with none it is zero from the start and stays
    zero: every call of [Join()] returns at once, whatever has been queued,
    and no job is ever taken or run. *)
Theorem NoKey_zero_thread_pool (w : W) ls s :
  run ls (AsyncJobQueue 0 w) = Some s →
  number_of_busy_threads s = 0%N
  ∧ Forall (λ j, j = JoinReturned) (join_callers s)
  ∧ dispatched s = []
  ∧ executed s = []
  ∧ world s = w
  ∧ (forallb (λ l, negb (is_cancel l)) ls = true →
     job_queue s = submissions ls).
Proof.
  intros Hrun.
  set (P := λ s : state,
         thread_pool s = [] ∧ number_of_busy_threads s = 0%N
         ∧ Forall (λ j, j = JoinReturned) (join_callers s)
         ∧ dispatched s = [] ∧ executed s = [] ∧ world s = w).
  assert (P s) as (_ & Hb & Hjc & Hd & He & Hw).
  { apply (NoKey_run_preserves P ls) with (s := AsyncJobQueue 0 w);
      [|by repeat split|done].
    clear. intros l s s' (Htp & Hb & Hjc & Hd & He & Hw).
    unfold step. destruct (terminated s); [done|].
    destruct l as [func wake|cb func wake|R cb func wake| | | |i|j|i| |i];
      simpl.
    - intros Hsub. pose proof Hsub as Htp'. unfold Add, submit in Htp'.
      destruct (emplace_back _ (job_queue s)); [simpl in Htp'|done].
      rewrite Htp in Htp'. simpl in Htp'. injection Htp' as <-.
      by repeat split.
    - intros Hsub. pose proof Hsub as Htp'.
      unfold AddWithCallback_void, submit in Htp'.
      destruct (emplace_back _ (job_queue s)); [simpl in Htp'|done].
      rewrite Htp in Htp'. simpl in Htp'. injection Htp' as <-.
      by repeat split.
    - intros Hsub. pose proof Hsub as Htp'.
      unfold AddWithCallback, submit in Htp'.
      destruct (emplace_back _ (job_queue s)); [simpl in Htp'|done].
      rewrite Htp in Htp'. simpl in Htp'. injection Htp' as <-.
      by repeat split.
    - intros [= <-]. unfold P. simpl. rewrite Htp. repeat split; try done.
      apply Forall_app. split; [done|].
      unfold join_wait, Join_predicate. rewrite Hb. simpl.
      by repeat constructor.
    - intros [= <-]. by repeat split.
    - intros [= <-]. unfold P. simpl. rewrite Htp. by repeat split.
    - unfold JobDispatcherThread. by rewrite Htp.
    - unfold Join_resume.
      destruct (join_callers s !! j) as [[[]|]|] eqn:Hj; try done.
      intros [= <-]. unfold P. simpl. repeat split; try done.
      apply Forall_insert; [done|].
      unfold join_wait, Join_predicate. by rewrite Hb.
    - unfold request_stop. by rewrite Htp.
    - intros ->%NoKey_destructor_notify_Some. unfold P. simpl.
      rewrite Htp. by repeat split.
    - unfold wait_raced. by rewrite Htp. }
  repeat split; try done.
  intros Hls. pose proof (NoKey_run_order ls _ s Hrun Hls) as Ho.
  by rewrite Hd in Ho.
Qed.





End NoKeyProperties.

(** * Instances of the further properties *)

Section KeyedPropertyExamples.
Import Keyed Examples.
Open Scope string_scope.
Open Scope list_scope.

Lemma joiner_waiting_reachable : reachable joiner_waiting.
Proof.
  exists 1%N, 0, [CallAdd "A" bump 0; CallJoin ["A"]].
  split; [by vm_compute|reflexivity].
Qed.

Lemma pool_size_bounds_in_progress_witness :
  length (thread_pool one_running) = N.to_nat 1
  ∧ (at_key (in_progress_job_count_map one_running) "A" ≤ 1)%N.
Proof.
  apply (pool_size_bounds_in_progress 1 0 [CallAdd "A" bump 0; WorkerStep 0]
           one_running "A"); [by vm_compute|reflexivity].
Defined.

Lemma pending_map_empty_iff_store_empty_witness :
  pending_job_count_map one_running = ∅ ↔ job_list one_running = [].
Proof.
  apply (pending_map_empty_iff_store_empty one_running).
  apply one_running_reachable.
Defined.

Lemma Join_predicate_reachable_witness :
  Join_predicate ["A"] joiner_waiting = true
  ↔ job_list joiner_waiting = []
    ∧ ∀ k, cancelled ["A"] k → key_workers k (thread_pool joiner_waiting) = 0.
Proof.
  apply (Join_predicate_reachable ["A"] joiner_waiting).
  apply joiner_waiting_reachable.
Defined.

Lemma Add_counts_one_witness :
  ∃ s', Add "A" bump 0 joiner_waiting = Some s'
        ∧ job_list s'
          = job_list joiner_waiting ++ [("A", async_deferred (job_Add bump))]
        ∧ at_key (pending_job_count_map s') "A"
          = (at_key (pending_job_count_map joiner_waiting) "A" + 1)%N
        ∧ (∀ k, k ≠ "A" →
             pending_job_count_map s' !! k
             = pending_job_count_map joiner_waiting !! k)
        ∧ in_progress_job_count_map s'
          = in_progress_job_count_map joiner_waiting
        ∧ ∀ ts, Ready ts s' = false ∧ Join_predicate ts s' = false.
Proof.
  eexists. split; [reflexivity|].
  apply (Add_counts_one "A" bump 0 joiner_waiting);
    [apply joiner_waiting_reachable|reflexivity].
Defined.

Lemma Cancel_absent_keys_witness : Cancel ["B"] joiner_waiting = joiner_waiting.
Proof.
  apply (Cancel_absent_keys ["B"] joiner_waiting).
  - apply joiner_waiting_reachable.
  - done.
  - intros k Hk. apply list_elem_of_singleton in Hk. by rewrite Hk.
Defined.

Lemma cancelled_jobs_never_dispatched_witness :
  ∃ s', run [WorkerStep 0; WorkerStep 0; WorkerStep 0; WorkerStep 0]
          (Cancel ["B"] two_queued)
        = Some s'
        ∧ ∃ d, dispatched s' = dispatched two_queued ++ d
               ∧ Forall (λ e, ¬ cancelled ["B"] e.1) d.
Proof.
  eexists. split; [reflexivity|].
  apply (cancelled_jobs_never_dispatched ["B"] two_queued
           [WorkerStep 0; WorkerStep 0; WorkerStep 0; WorkerStep 0]);
    [reflexivity|].
  repeat constructor; intros e He; discriminate He.
Defined.

Lemma worker_exits_iff_witness :
  thread_pool stopped_drained !! 0 = Some (JThread true Exited)
  ↔ true = true ∧ @nil (string * future nat string) = []
    ∧ (@LoopTop string nat string = LoopTop
       ∨ @LoopTop string nat string = Waiting true).
Proof.
  apply (worker_exits_iff 0 (JThread true LoopTop)
           {| job_list := [];
              pending_job_count_map := ∅;
              in_progress_job_count_map := ∅;
              thread_pool := [JThread true LoopTop];
              join_callers := [];
              world := 1;
              dispatched := [("A", async_deferred (job_Add bump))];
              executed := [("A", async_deferred (job_Add bump))];
              terminated := None |}
           stopped_drained); reflexivity.
Defined.

Lemma single_worker_drains_on_stop_witness :
  ∃ s', run (replicate (3 * length (job_list stopped_with_job) + 1)
               (WorkerStep 0)) stopped_with_job
        = Some s'
        ∧ thread_pool s' = [JThread true Exited]
        ∧ job_list s' = []
        ∧ executed s' = executed stopped_with_job ++ job_list stopped_with_job
        ∧ world s' = run_jobs (job_list stopped_with_job)
                       (world stopped_with_job).
Proof.
  apply (single_worker_drains_on_stop stopped_with_job);
    [reflexivity|reflexivity|].
  repeat constructor. intros w. by eexists.
Defined.

Lemma single_worker_Join_returns_witness :
  ∃ s', run (replicate (3 * length (job_list joiner_waiting) + 1)
               (WorkerStep 0) ++ [JoinerStep 0]) joiner_waiting
        = Some s'
        ∧ join_callers s' !! 0 = Some (Joiner ["A"] JoinReturned)
        ∧ executed s' = executed joiner_waiting ++ job_list joiner_waiting
        ∧ job_list s' = []
        ∧ pending_job_count_map s' = ∅
        ∧ in_progress_job_count_map s' = ∅.
Proof.
  apply (single_worker_Join_returns joiner_waiting 0 ["A"] false);
    [apply joiner_waiting_reachable|reflexivity|reflexivity| |reflexivity].
  repeat constructor. intros w. by eexists.
Defined.

Lemma callback_skipped_when_func_throws_witness :
  ∃ after, step (WorkerStep 0) lost_ticket_running = Some after
           ∧ world after = (5, [CalledFunc])
           ∧ terminated after = Some "lost".
Proof.
  apply (callback_skipped_when_func_throws nat "A" add_ticket lost_ticket 0
           (JThread false (Running "A" lost_ticket_job)) lost_ticket_running
           5 5 [] "lost"); reflexivity.
Defined.

Lemma wakeup_lost_only_by_Cancel_or_take_witness :
  ∃ s', step (CallAdd "B" bump 0) joiner_waiting = Some s' ∧ no_sleeper s'.
Proof.
  eexists. split; [reflexivity|].
  apply (wakeup_lost_only_by_Cancel_or_take (CallAdd "B" bump 0)
           joiner_waiting); [reflexivity|reflexivity|reflexivity|].
  intros [|j] c Hj Hb; [|by destruct j].
  simpl in Hj. injection Hj as <-. reflexivity.
Defined.

Lemma taken_and_queued_sublist_of_submissions_witness :
  ∃ s, run [CallAdd "A" bump 0; CallAdd "B" bump 0; CallCancel ["A"];
            WorkerStep 0]
         (AsyncJobQueue 1 0)
       = Some s
       ∧ sublist (dispatched s ++ job_list s)
           (submissions
              [CallAdd "A" bump 0; CallAdd "B" bump 0; CallCancel ["A"];
               WorkerStep (K:=string) (W:=nat) (E:=string) 0]).
Proof.
  eexists. split; [reflexivity|].
  apply (taken_and_queued_sublist_of_submissions 1 0
           [CallAdd "A" bump 0; CallAdd "B" bump 0; CallCancel ["A"];
            WorkerStep 0]).
  reflexivity.
Defined.

(** Two workers and three jobs, run out of order: the second job has been
    run while the first and the third are held by the two workers. *)
Lemma taken_jobs_run_once_witness :
  run [CallAdd "A" double 0; CallAdd "B" bump 0; CallAdd "A" bump 0;
       WorkerStep 0; WorkerStep 1; WorkerStep 1; WorkerStep 1; WorkerStep 1]
    (AsyncJobQueue 2 0)
  = Some two_workers_busy
  ∧ executed two_workers_busy = [("B", async_deferred (job_Add bump))]
  ∧ in_flight (thread_pool two_workers_busy)
    = [("A", async_deferred (job_Add double));
       ("A", async_deferred (job_Add bump))]
  ∧ dispatched two_workers_busy
    = [("A", async_deferred (job_Add double));
       ("B", async_deferred (job_Add bump));
       ("A", async_deferred (job_Add bump))]
  ∧ executed two_workers_busy ++ in_flight (thread_pool two_workers_busy)
    ≡ₚ dispatched two_workers_busy.
Proof.
  do 4 (split; [reflexivity|]).
  apply (taken_jobs_run_once 2 0
           [CallAdd "A" double 0; CallAdd "B" bump 0; CallAdd "A" bump 0;
            WorkerStep 0; WorkerStep 1; WorkerStep 1; WorkerStep 1;
            WorkerStep 1]
           two_workers_busy); reflexivity.
Defined.

(** Two workers: worker 0 sleeps; the destructor runs while worker 1 is
    between the test of its predicate and its wait.  Worker 0 is woken and
    leaves; worker 1 stays blocked with its stop requested. *)
Lemma destructor_can_miss_a_waiting_worker_witness :
  run [WorkerStep 0; DestructorNotifyRaced 1] (AsyncJobQueue 2 0)
  = Some destructor_missed
  ∧ run [WorkerStep 0] destructor_missed = Some destructor_hung
  ∧ step (WorkerStep 1) destructor_hung = None
  ∧ Forall (λ t, stop_requested t = true) (thread_pool destructor_missed)
  ∧ thread_pool destructor_missed !! 1 = Some (JThread true (Waiting false))
  ∧ job_list destructor_missed = []
  ∧ thread_pool destructor_hung !! 1 = Some (JThread true (Waiting false)).
Proof.
  do 3 (split; [reflexivity|]).
  destruct (destructor_can_miss_a_waiting_worker 1
              {| job_list := [];
                 pending_job_count_map := ∅;
                 in_progress_job_count_map := ∅;
                 thread_pool :=
                   [JThread false (Waiting false); JThread false LoopTop];
                 join_callers := [];
                 world := 0;
                 dispatched := [];
                 executed := [];
                 terminated := None |}
              destructor_missed eq_refl)
    as (Hstop & Hmiss & Hjl & _ & _ & _ & Hstay).
  split; [exact Hstop|]. split; [exact Hmiss|]. split; [exact Hjl|].
  apply (Hstay [WorkerStep 0] destructor_hung); reflexivity.
Defined.

Lemma joiner_notified_reachable : reachable joiner_notified.
Proof.
  exists 1%N, 0,
    [CallAdd "A" bump 0; CallJoin ["A"];
     WorkerStep 0; WorkerStep 0; WorkerStep 0; WorkerStep 0].
  split; [by vm_compute|reflexivity].
Qed.

Lemma Join_returns_only_when_quiescent_witness :
  job_list joiner_notified = []
  ∧ ∀ k, cancelled ["A"] k → key_workers k (thread_pool joiner_notified) = 0.
Proof.
  eapply (Join_returns_only_when_quiescent (JoinerStep 0) joiner_notified
            _ 0 ["A"]).
  - apply joiner_notified_reachable.
  - reflexivity.
  - reflexivity.
  - discriminate.
Defined.
End KeyedPropertyExamples.

Section NoKeyPropertyExamples.
Import NoKey Examples.
Open Scope list_scope.

Lemma joined_too_early_reachable : reachable joined_too_early.
Proof.
  exists 1%N, 0, [WorkerStep 0; CallAdd bump 0; CallJoin].
  split; [by vm_compute|reflexivity].
Qed.

Lemma NoKey_busy_counter_witness :
  number_of_busy_threads joined_too_early
  = N.of_nat (busy_count (thread_pool joined_too_early))
  ∧ (Join_predicate joined_too_early = true
     ↔ Forall (λ t, busy t = 0) (thread_pool joined_too_early)).
Proof.
  apply (NoKey_busy_counter joined_too_early), joined_too_early_reachable.
Defined.

(** Two workers and three submissions: two jobs have been taken, one of
    them run, and the third is queued. *)
Lemma NoKey_fifo_dispatch_witness :
  run [CallAdd double 0; CallAdd bump 0; CallAdd bump 0;
       WorkerStep 0; WorkerStep 1; WorkerStep 1]
    (AsyncJobQueue 2 0)
  = Some nokey_two_taken
  ∧ dispatched nokey_two_taken
    = [async_deferred (job_Add double); async_deferred (job_Add bump)]
  ∧ job_queue nokey_two_taken = [async_deferred (job_Add bump)]
  ∧ dispatched nokey_two_taken ++ job_queue nokey_two_taken
    = submissions
        [CallAdd double 0; CallAdd bump 0; CallAdd bump 0;
         WorkerStep 0; WorkerStep 1; WorkerStep 1].
Proof.
  do 3 (split; [reflexivity|]).
  apply (NoKey_fifo_dispatch 2 0
           [CallAdd double 0; CallAdd bump 0; CallAdd bump 0;
            WorkerStep 0; WorkerStep 1; WorkerStep 1]
           nokey_two_taken); reflexivity.
Defined.


Lemma NoKey_cancelled_jobs_never_dispatched_witness :
  ∃ s', run [WorkerStep 0] (Cancel joined_too_early) = Some s'
        ∧ job_queue s' = [] ∧ dispatched s' = dispatched joined_too_early.
Proof.
  eexists. split; [reflexivity|].
  apply (NoKey_cancelled_jobs_never_dispatched joined_too_early [WorkerStep 0]);
    [reflexivity|]. by repeat constructor.
Defined.

Lemma NoKey_zero_thread_pool_witness :
  ∃ s, run [CallAdd bump 0; CallJoin] (AsyncJobQueue 0 0) = Some s
       ∧ number_of_busy_threads s = 0%N
       ∧ Forall (λ j, j = JoinReturned) (join_callers s)
       ∧ dispatched s = []
       ∧ executed s = []
       ∧ world s = 0
       ∧ (forallb (λ l, negb (is_cancel l)) [CallAdd bump 0; CallJoin] = true →
          job_queue s = submissions [CallAdd bump 0; CallJoin]).
Proof.
  eexists. split; [reflexivity|].
  apply (NoKey_zero_thread_pool 0 [CallAdd bump 0; CallJoin]). reflexivity.
Defined.
End NoKeyPropertyExamples.
